(** * BaseAPI: a base class for RESTful HTTP API clients

    A shallow embedding of [BaseAPI.py]: the status classification of
    [_check_status], the transport helpers [_get] and [_put_post_delete],
    the query-string helper [_param] and the time-bounded cache of
    [_memoize], followed by the properties the specification states
    about them.

    Conventions of the embedding.
    - Python values are the inductive [pyval]: [None], booleans,
      integers, strings, lists, tuples and dictionaries with string
      keys (what [locals()], keyword arguments and JSON objects have).
      Floats are left out.  A string is a sequence of code points
      below 256, one per [ascii].
    - A raised exception is a value of [exn]; a computation that may
      raise returns a [result].
    - Dictionaries that the program shares and mutates live in a
      [heap] and are passed around as references ([loc]).
    - The network is a function from the history of requests and the
      current request to a reply; every request issued is appended to
      the [requested] log of the state.
    - [json.loads], the clock and the function wrapped by [_memoize]
      are parameters.
    - [assert] statements are executed, as they are unless the
      interpreter is asked to drop them. *)

From Stdlib Require Import ZArith String Ascii List Bool Lia.
From Stdlib Require Import DecimalString.
Import ListNotations.

#[local] Set Warnings "-register-all".
#[local] Open Scope string_scope.
#[local] Open Scope Z_scope.

(** ** Python values *)

Inductive pyval : Type :=
| PNone
| PBool (b : bool)
| PInt (z : Z)
| PStr (s : string)
| PList (items : list pyval)
| PTuple (items : list pyval)
| PDict (items : list (string * pyval)).

(** A dictionary keeps its entries in insertion order, one per key. *)
Definition pydict : Type := list (string * pyval).

(** Truth value of an object, as tested by [if value:]. *)
Definition truthy (v : pyval) : bool :=
  match v with
  | PNone => false
  | PBool b => b
  | PInt z => negb (z =? 0)
  | PStr s => negb (s =? "")%string
  | PList l => match l with [] => false | _ :: _ => true end
  | PTuple l => match l with [] => false | _ :: _ => true end
  | PDict d => match d with [] => false | _ :: _ => true end
  end.

(** *** [str] and [repr] *)

Definition str_of_int (z : Z) : string := NilZero.string_of_int (Z.to_int z).

Definition hex_digit (n : N) : ascii :=
  if (n <? 10)%N then ascii_of_N (48 + n) else ascii_of_N (87 + n).

(** [\xhh] with two lower-case hexadecimal digits. *)
Definition hex_escape (c : ascii) : string :=
  let n := N_of_ascii c in
  String "\" (String "x" (String (hex_digit (n / 16)) (String (hex_digit (n mod 16)) ""))).

(** Code points below 256 that [repr] writes as they are. *)
Definition printable (c : ascii) : bool :=
  let n := N_of_ascii c in
  ((32 <=? n) && (n <? 127) || (161 <=? n) && negb (n =? 173))%N.

Fixpoint contains_char (c : ascii) (s : string) : bool :=
  match s with
  | EmptyString => false
  | String a s' => Ascii.eqb a c || contains_char c s'
  end.

Definition single_quote : ascii := ascii_of_N 39.
Definition double_quote : ascii := ascii_of_N 34.
Definition backslash : ascii := ascii_of_N 92.

(** The quote [repr] encloses a string in: a double quote when the
    string holds a single quote and no double quote. *)
Definition repr_quote (s : string) : ascii :=
  if contains_char single_quote s && negb (contains_char double_quote s)
  then double_quote else single_quote.

Fixpoint repr_chars (q : ascii) (s : string) : string :=
  match s with
  | EmptyString => EmptyString
  | String c s' =>
      (if Ascii.eqb c q || Ascii.eqb c backslash then String backslash (String c "")
       else if Ascii.eqb c (ascii_of_N 9) then String backslash "t"
       else if Ascii.eqb c (ascii_of_N 10) then String backslash "n"
       else if Ascii.eqb c (ascii_of_N 13) then String backslash "r"
       else if printable c then String c ""
       else hex_escape c) ++ repr_chars q s'
  end.

Definition repr_str (s : string) : string :=
  let q := repr_quote s in
  String q (repr_chars q s ++ String q "").

Fixpoint py_repr (v : pyval) : string :=
  match v with
  | PNone => "None"
  | PBool true => "True"
  | PBool false => "False"
  | PInt z => str_of_int z
  | PStr s => repr_str s
  | PList l => "[" ++ String.concat ", " (map py_repr l) ++ "]"
  | PTuple l =>
      match l with
      | [x] => "(" ++ py_repr x ++ ",)"
      | _ => "(" ++ String.concat ", " (map py_repr l) ++ ")"
      end
  | PDict d =>
      "{" ++ String.concat ", "
               (map (fun kv => repr_str (fst kv) ++ ": " ++ py_repr (snd kv)) d)
          ++ "}"
  end.

(** [str(v)]: a string is itself, everything else is its [repr]. *)
Definition py_str (v : pyval) : string :=
  match v with
  | PStr s => s
  | _ => py_repr v
  end.

(** *** Hashing and equality *)

(** Objects that can be hashed, hence used inside a dictionary key. *)
Fixpoint hashable (v : pyval) : bool :=
  match v with
  | PNone | PBool _ | PInt _ | PStr _ => true
  | PTuple l => forallb hashable l
  | PList _ | PDict _ => false
  end.

Fixpoint dict_get (k : string) (d : pydict) : option pyval :=
  match d with
  | [] => None
  | (k', v) :: d' => if (k' =? k)%string then Some v else dict_get k d'
  end.

(** [a == b].  A boolean equals the integer it stands for; two
    dictionaries are equal when they hold the same entries in any
    order. *)
Fixpoint py_eqb (a b : pyval) {struct a} : bool :=
  match a, b with
  | PNone, PNone => true
  | PBool x, PBool y => Bool.eqb x y
  | PBool x, PInt y => Z.b2z x =? y
  | PInt x, PBool y => x =? Z.b2z y
  | PInt x, PInt y => x =? y
  | PStr x, PStr y => (x =? y)%string
  | PTuple l1, PTuple l2 | PList l1, PList l2 =>
      (fix all2 (l1 l2 : list pyval) : bool :=
         match l1, l2 with
         | [], [] => true
         | x :: l1', y :: l2' => py_eqb x y && all2 l1' l2'
         | _, _ => false
         end) l1 l2
  | PDict d1, PDict d2 =>
      (length d1 =? length d2)%nat &&
      (fix sub (d : pydict) : bool :=
         match d with
         | [] => true
         | kv :: d' =>
             match dict_get (fst kv) d2 with
             | Some v' => py_eqb (snd kv) v'
             | None => false
             end && sub d'
         end) d1
  | _, _ => false
  end.

Fixpoint args_eqb (l1 l2 : list pyval) : bool :=
  match l1, l2 with
  | [], [] => true
  | x :: l1', y :: l2' => py_eqb x y && args_eqb l1' l2'
  | _, _ => false
  end.

(** ** Dictionaries *)

(** [d[k] = v]: the value is replaced where the key is, a new key goes
    to the end. *)
Fixpoint dict_set (k : string) (v : pyval) (d : pydict) : pydict :=
  match d with
  | [] => [(k, v)]
  | (k', v') :: d' =>
      if (k' =? k)%string then (k', v) :: d' else (k', v') :: dict_set k v d'
  end.

(** [d.update(other)]: every entry of [other] is assigned into [d], in
    the order of [other]. *)
Definition dict_update (d other : pydict) : pydict :=
  fold_left (fun acc kv => dict_set (fst kv) (snd kv) acc) other d.

Definition dict_keys (d : pydict) : list string := map fst d.

(** ** Exceptions and results *)

Inductive exn : Type :=
| ExRateLimitError (value : string)
| ExAPIError (value : pyval)
| ExValueError (msg : string)
| ExAssertionError (msg : string)
| ExJSONDecodeError
| ExKeyError (key : pyval)
| ExTypeError
| ExOther (name : string).

Inductive result (A : Type) : Type :=
| Ok (a : A)
| Raise (e : exn).

Arguments Ok {A} a.
Arguments Raise {A} e.

(** [RateLimitError.__init__]. *)
Definition RateLimitError (value : pyval) : exn :=
  ExRateLimitError (py_str value ++ " Error/Rate Limit Encountered").

(** [APIError.__init__]. *)
Definition APIError (value : pyval) : exn := ExAPIError value.

(** [obj[key]] for a string [key]: only a dictionary can be indexed by
    a string. *)
Definition py_getitem (obj : pyval) (key : string) : result pyval :=
  match obj with
  | PDict d =>
      match dict_get key d with
      | Some v => Ok v
      | None => Raise (ExKeyError (PStr key))
      end
  | _ => Raise ExTypeError
  end.

(** ** Client configuration, requests and responses *)

Definition loc : Type := nat.

(** The time-to-live of a cache entry: a number of seconds, or
    [float('inf')]. *)
Inductive cache_life : Type :=
| Seconds (t : Z)
| Forever.

Record BaseAPI : Type := mkBaseAPI {
  _api : string;
  _rate_limit_status_code : Z;
  _cache_life : cache_life;
  _auth_dict : loc
}.

(** [BaseAPI.__init__]; the defaults of the source are
    [rate_limit_status_code=403] and [cache_life=float('inf')]. *)
Definition BaseAPI_init (api : string) (rate_limit_status_code : Z)
    (cache_life : cache_life) (auth_dict : loc) : BaseAPI :=
  {| _api := api;
     _rate_limit_status_code := rate_limit_status_code;
     _cache_life := cache_life;
     _auth_dict := auth_dict |}.

(** [set_auth]: the instance now refers to the dictionary [auth]. *)
Definition set_auth (self : BaseAPI) (auth : loc) : BaseAPI :=
  {| _api := _api self;
     _rate_limit_status_code := _rate_limit_status_code self;
     _cache_life := _cache_life self;
     _auth_dict := auth |}.

Record Response : Type := mkResponse {
  status_code : Z;
  text : string;
  url : string
}.

Inductive http_method : Type := GET | PUT | POST | DELETE.

Record http_request : Type := mkRequest {
  req_method : http_method;
  req_url : string;
  req_data : option pydict
}.

(** The mutable world: the dictionaries the program shares, and the
    requests issued so far, oldest first. *)
Record state : Type := mkState {
  heap : loc -> pydict;
  requested : list http_request
}.

Definition heap_set (h : loc -> pydict) (l : loc) (d : pydict) : loc -> pydict :=
  fun l' => if Nat.eqb l' l then d else h l'.

(** Computations that read and write the world and may raise. *)
Definition M (A : Type) : Type := state -> result A * state.

Definition ret {A : Type} (a : A) : M A := fun st => (Ok a, st).

Definition raise {A : Type} (e : exn) : M A := fun st => (Raise e, st).

Definition bind {A B : Type} (m : M A) (k : A -> M B) : M B :=
  fun st =>
    match m st with
    | (Ok a, st') => k a st'
    | (Raise e, st') => (Raise e, st')
    end.

Definition lift {A : Type} (r : result A) : M A := fun st => (r, st).

Notation "x <- m ;; k" := (bind m (fun x => k))
  (at level 61, m at next level, right associativity).
Notation "m ;;; k" := (bind m (fun _ => k))
  (at level 61, right associativity).

Definition read_dict (l : loc) : M pydict := fun st => (Ok (heap st l), st).

Definition write_dict (l : loc) (d : pydict) : M unit :=
  fun st => (Ok tt, {| heap := heap_set (heap st) l d; requested := requested st |}).

(** ** Query-string helper *)

(** [_param]: [param=value&] for a truthy value, nothing otherwise. *)
Definition _param (self : BaseAPI) (param value : pyval) : string :=
  if truthy value
  then py_str param ++ "=" ++ py_str value ++ "&"
  else "".

(** ** Transport and status layer *)

Section Transport.

(** [json.loads]: [None] stands for a [JSONDecodeError]. *)
Variable json_loads : string -> option pyval.

(** The remote side: the reply to a request, given the requests
    issued before it.  A reply is a response or an exception of the
    HTTP library. *)
Variable server : list http_request -> http_request -> result Response.

Definition json_loads_r (s : string) : result pyval :=
  match json_loads s with
  | Some v => Ok v
  | None => Raise ExJSONDecodeError
  end.

(** [requests.get], [requests.put], [requests.post] and
    [requests.delete]. *)
Definition http_call (m : http_method) (u : string) (data : option pydict)
  : M Response :=
  fun st =>
    let req := {| req_method := m; req_url := u; req_data := data |} in
    (server (requested st) req,
     {| heap := heap st; requested := requested st ++ [req] |}).

(** The [_key] property: the auth dictionary in query-string form. *)
Definition _key (self : BaseAPI) : M string :=
  items <- read_dict (_auth_dict self) ;;
  ret (fold_left
         (fun auth_string kv =>
            auth_string ++ (py_str (PStr (fst kv)) ++ "=" ++ py_str (snd kv) ++ "&"))
         items "").

Definition _check_status (self : BaseAPI) (response : Response) : result unit :=
  let sc := status_code response in
  if sc / 100 =? 2 then
    if truthy (PStr (text response)) then Ok tt
    else Raise (ExAssertionError "Invalid response from server")
  else if sc =? _rate_limit_status_code self then
    Raise (RateLimitError (PInt (_rate_limit_status_code self)))
  else if sc =? 401 then
    match json_loads_r (text response) with
    | Ok response' =>
        match py_getitem response' "error_msg" with
        | Ok msg => Raise (APIError msg)
        | Raise e => Raise e
        end
    | Raise e => Raise e
    end
  else
    Raise (ExValueError ("Status code unhandled: " ++ py_str (PInt sc)
                           ++ " for URL " ++ url response)).

Definition _get (self : BaseAPI) (qstring : string) : M pyval :=
  key <- _key self ;;
  let qstring := qstring ++ key in
  response <- http_call GET (_api self ++ qstring) None ;;
  lift (_check_status self response) ;;;
  lift (json_loads_r (text response)).

(** [payload] is a reference: the caller's dictionary is updated in
    place, and what is sent is its content after the update. *)
Definition _put_post_delete (self : BaseAPI) (endpoint : string)
    (payload : loc) (http_method : http_method) : M pyval :=
  auth <- read_dict (_auth_dict self) ;;
  old <- read_dict payload ;;
  write_dict payload (dict_update old auth) ;;;
  data <- read_dict payload ;;
  response <- http_call http_method (_api self ++ endpoint) (Some data) ;;
  lift (_check_status self response) ;;;
  lift (json_loads_r (text response)).

Definition _put (self : BaseAPI) (endpoint : string) (payload : loc) : M pyval :=
  _put_post_delete self endpoint payload PUT.

Definition _post (self : BaseAPI) (endpoint : string) (payload : loc) : M pyval :=
  _put_post_delete self endpoint payload POST.

Definition _delete (self : BaseAPI) (endpoint : string) (payload : loc) : M pyval :=
  _put_post_delete self endpoint payload DELETE.

End Transport.

(** ** Query and payload construction from local variables *)

(** The entries of [d] without the entry of [k]. *)
Fixpoint dict_remove (k : string) (d : pydict) : pydict :=
  match d with
  | [] => []
  | (k', v) :: d' =>
      if (k' =? k)%string then d' else (k', v) :: dict_remove k d'
  end.

(** [d.pop(k)] on the dictionary at [l]: the value of [k], which
    leaves the dictionary; [KeyError] when [k] is not a key. *)
Definition dict_pop (l : loc) (k : string) : M pyval :=
  d <- read_dict l ;;
  match dict_get k d with
  | Some v => write_dict l (dict_remove k d) ;;; ret v
  | None => raise (ExKeyError (PStr k))
  end.

(** [for val in endpoint_args: locals_copy.pop(val)]. *)
Fixpoint pop_all (l : loc) (names : list string) : M unit :=
  match names with
  | [] => ret tt
  | n :: names' => dict_pop l n ;;; pop_all l names'
  end.

(** [_parse_params].  [locals_copy] refers to a copy of the caller's
    [locals()]; the value it holds under ['self'] is the receiver,
    which is popped and never looked at, so any value stands for it. *)
Definition _parse_params (self : BaseAPI) (locals_copy : loc)
    (endpoint_args : list string) : M string :=
  dict_pop locals_copy "self" ;;;
  pop_all locals_copy endpoint_args ;;;
  items <- read_dict locals_copy ;;
  ret (fold_left
         (fun query_string kv =>
            query_string ++ _param self (PStr (fst kv)) (snd kv))
         items "").

(** [_parse_payload]: what is returned is the reference it was
    given. *)
Definition _parse_payload (self : BaseAPI) (locals_copy : loc)
    (endpoint_args : list string) : M loc :=
  dict_pop locals_copy "self" ;;;
  pop_all locals_copy endpoint_args ;;;
  ret locals_copy.

(** ** Memoization layer *)

(** A cache key: the names of the keyword arguments, as a set, and the
    positional arguments after the receiver.  The wrapped function is
    the same in every key of one [memo], so it is left out. *)
Definition memo_key : Type := (list string * list pyval)%type.

(** [frozenset(kwargs)]: the keyword names. *)
Definition frozenset (kwargs : pydict) : list string := dict_keys kwargs.

Definition subsetb (a b : list string) : bool :=
  forallb (fun x => existsb (fun y => (y =? x)%string) b) a.

Definition frozenset_eqb (a b : list string) : bool :=
  subsetb a b && subsetb b a.

Definition key_eqb (stored query : memo_key) : bool :=
  frozenset_eqb (fst stored) (fst query) && args_eqb (snd stored) (snd query).

(** [now - timestamp > cache_life]. *)
Definition outlived (age : Z) (life : cache_life) : bool :=
  match life with
  | Seconds t => t <? age
  | Forever => false
  end.

Section Memoize.

(** [St] is whatever the wrapped function reads and changes, [V]
    what it returns. *)
Variables St V : Type.

(** The wrapped function: receiver, positional arguments after the
    receiver, keyword arguments.  It acts on [St] only: the [memo] of
    its wrapper is a closure variable it cannot reach, and it is taken
    not to call its own wrapper. *)
Variable f : BaseAPI -> list pyval -> pydict -> St -> result V * St.

(** The [memo] dictionary of one wrapper: value and timestamp by
    key. *)
Definition memo_t : Type := list (memo_key * (V * Z)).

Fixpoint memo_get (key : memo_key) (memo : memo_t) : option (V * Z) :=
  match memo with
  | [] => None
  | (k, e) :: memo' => if key_eqb k key then Some e else memo_get key memo'
  end.

Fixpoint memo_set (key : memo_key) (e : V * Z) (memo : memo_t) : memo_t :=
  match memo with
  | [] => [(key, e)]
  | (k, e') :: memo' =>
      if key_eqb k key then (k, e) :: memo' else (k, e') :: memo_set key e memo'
  end.

Definition make_key (args : list pyval) (kwargs : pydict) : memo_key :=
  (frozenset kwargs, args).

(** [key not in memo or now - memo[key][1] > instance._cache_life]. *)
Definition must_call (key : memo_key) (now : Z) (instance : BaseAPI)
    (memo : memo_t) : bool :=
  match memo_get key memo with
  | None => true
  | Some (_, stamp) => outlived (now - stamp) (_cache_life instance)
  end.

(** The wrapper [memoized] returned by [_memoize f].  [now] is the
    value of [int(time.time())] read at the start of the call,
    [instance] is [args[0]] and [args] the rest.  Looking the key up
    hashes it, which raises [TypeError] on an unhashable argument
    before anything else happens.  The final [memo[key][0]] always
    finds the key, see [memoized_hit] and [memoized_miss]. *)
Definition memoized (now : Z) (instance : BaseAPI) (args : list pyval)
    (kwargs : pydict) (memo : memo_t) (s : St) : result V * memo_t * St :=
  if negb (forallb hashable args) then
    (Raise ExTypeError, memo, s)
  else
    let key := make_key args kwargs in
    let '(stored, memo1, s1) :=
      if must_call key now instance memo then
        match f instance args kwargs s with
        | (Ok v, s') => (Ok tt, memo_set key (v, now) memo, s')
        | (Raise e, s') => (Raise e, memo, s')
        end
      else (Ok tt, memo, s) in
    match stored with
    | Raise e => (Raise e, memo1, s1)
    | Ok _ =>
        match memo_get key memo1 with
        | Some (v, _) => (Ok v, memo1, s1)
        | None => (Raise (ExKeyError (PTuple args)), memo1, s1)
        end
    end.

End Memoize.

Arguments memo_get {V} key memo.
Arguments memo_set {V} key e memo.
Arguments must_call {V} key now instance memo.
Arguments memoized {St V} f now instance args kwargs memo s.

(** ** A JSON decoder for integer-valued documents

    An instance of the [json_loads] parameter, used to run the program
    on concrete responses: objects, arrays, strings with the one-letter
    escapes, integers, [true], [false] and [null].  Documents outside
    this fragment (fractions, exponents, [\u] escapes) are rejected. *)

Module Json.

Definition is_ws (c : ascii) : bool :=
  let n := N_of_ascii c in
  ((n =? 32) || (n =? 9) || (n =? 10) || (n =? 13))%N.

Definition is_digit (c : ascii) : bool :=
  let n := N_of_ascii c in ((48 <=? n) && (n <=? 57))%N.

Definition digit_val (c : ascii) : Z := Z.of_N (N_of_ascii c) - 48.

Fixpoint skip_ws (s : string) : string :=
  match s with
  | String c r => if is_ws c then skip_ws r else s
  | EmptyString => EmptyString
  end.

Fixpoint strip_prefix (p s : string) : option string :=
  match p, s with
  | EmptyString, _ => Some s
  | String a p', String b s' => if Ascii.eqb a b then strip_prefix p' s' else None
  | String _ _, EmptyString => None
  end.

Definition unescape (c : ascii) : option ascii :=
  if Ascii.eqb c double_quote then Some double_quote
  else if Ascii.eqb c backslash then Some backslash
  else if Ascii.eqb c "/" then Some "/"%char
  else if Ascii.eqb c "b" then Some (ascii_of_N 8)
  else if Ascii.eqb c "f" then Some (ascii_of_N 12)
  else if Ascii.eqb c "n" then Some (ascii_of_N 10)
  else if Ascii.eqb c "r" then Some (ascii_of_N 13)
  else if Ascii.eqb c "t" then Some (ascii_of_N 9)
  else None.

(** The characters of a string literal after its opening quote, and
    what follows the closing quote. *)
Fixpoint scan_string (s : string) : option (string * string) :=
  match s with
  | EmptyString => None
  | String c r =>
      if Ascii.eqb c double_quote then Some (EmptyString, r)
      else if Ascii.eqb c backslash then
        match r with
        | String e r' =>
            match unescape e, scan_string r' with
            | Some ch, Some (body, rest) => Some (String ch body, rest)
            | _, _ => None
            end
        | EmptyString => None
        end
      else if (N_of_ascii c <? 32)%N then None
      else
        match scan_string r with
        | Some (body, rest) => Some (String c body, rest)
        | None => None
        end
  end.

Fixpoint scan_digits (acc : Z) (s : string) : Z * string :=
  match s with
  | String c r => if is_digit c then scan_digits (10 * acc + digit_val c) r else (acc, s)
  | EmptyString => (acc, s)
  end.

(** An integer literal without sign. *)
Definition scan_nat (s : string) : option (Z * string) :=
  match s with
  | String c r =>
      if negb (is_digit c) then None
      else
        let '(n, rest) := scan_digits 0 s in
        let leading_zero :=
          Ascii.eqb c "0" && match r with String d _ => is_digit d | EmptyString => false end in
        let fraction :=
          match rest with
          | String d _ => Ascii.eqb d "." || Ascii.eqb d "e" || Ascii.eqb d "E"
          | EmptyString => false
          end in
        if leading_zero || fraction then None else Some (n, rest)
  | EmptyString => None
  end.

Fixpoint value (fuel : nat) (s : string) : option (pyval * string) :=
  match fuel with
  | O => None
  | S n =>
      match skip_ws s with
      | EmptyString => None
      | String c r as s0 =>
          if Ascii.eqb c "{" then
            match skip_ws r with
            | String d r' => if Ascii.eqb d "}" then Some (PDict [], r') else
                match members n (String d r') [] with
                | Some (m, rest) => Some (PDict m, rest)
                | None => None
                end
            | EmptyString => None
            end
          else if Ascii.eqb c "[" then
            match skip_ws r with
            | String d r' => if Ascii.eqb d "]" then Some (PList [], r') else
                match elements n (String d r') with
                | Some (l, rest) => Some (PList l, rest)
                | None => None
                end
            | EmptyString => None
            end
          else if Ascii.eqb c double_quote then
            match scan_string r with
            | Some (body, rest) => Some (PStr body, rest)
            | None => None
            end
          else if Ascii.eqb c "-" then
            match scan_nat r with
            | Some (z, rest) => Some (PInt (- z), rest)
            | None => None
            end
          else if is_digit c then
            match scan_nat s0 with
            | Some (z, rest) => Some (PInt z, rest)
            | None => None
            end
          else
            match strip_prefix "true" s0, strip_prefix "false" s0, strip_prefix "null" s0 with
            | Some rest, _, _ => Some (PBool true, rest)
            | _, Some rest, _ => Some (PBool false, rest)
            | _, _, Some rest => Some (PNone, rest)
            | _, _, _ => None
            end
      end
  end
with members (fuel : nat) (s : string) (acc : pydict) : option (pydict * string) :=
  match fuel with
  | O => None
  | S n =>
      match skip_ws s with
      | String c r =>
          if negb (Ascii.eqb c double_quote) then None else
          match scan_string r with
          | Some (k, rest) =>
              match skip_ws rest with
              | String colon rest1 =>
                  if negb (Ascii.eqb colon ":") then None else
                  match value n rest1 with
                  | Some (v, rest2) =>
                      match skip_ws rest2 with
                      | String sep rest3 =>
                          if Ascii.eqb sep "," then members n rest3 (dict_set k v acc)
                          else if Ascii.eqb sep "}" then Some (dict_set k v acc, rest3)
                          else None
                      | EmptyString => None
                      end
                  | None => None
                  end
              | EmptyString => None
              end
          | None => None
          end
      | EmptyString => None
      end
  end
with elements (fuel : nat) (s : string) : option (list pyval * string) :=
  match fuel with
  | O => None
  | S n =>
      match value n s with
      | Some (v, rest) =>
          match skip_ws rest with
          | String sep rest1 =>
              if Ascii.eqb sep "," then
                match elements n rest1 with
                | Some (l, rest2) => Some (v :: l, rest2)
                | None => None
                end
              else if Ascii.eqb sep "]" then Some ([v], rest1)
              else None
          | EmptyString => None
          end
      | None => None
      end
  end.

Definition loads (s : string) : option pyval :=
  match value (2 * String.length s + 2) s with
  | Some (v, rest) =>
      match skip_ws rest with
      | EmptyString => Some v
      | String _ _ => None
      end
  | None => None
  end.

End Json.

(** ** Sample configurations

    Concrete clients, servers and wrapped functions on which the
    program is run below. *)

Module Sample.

Definition dq : string := String double_quote "".

(** The document [{"error_msg": "invalid token"}]. *)
Definition invalid_token_body : string :=
  "{" ++ dq ++ "error_msg" ++ dq ++ ": " ++ dq ++ "invalid token" ++ dq ++ "}".

(** The document [{"items": [1, 2]}]. *)
Definition items_body : string :=
  "{" ++ dq ++ "items" ++ dq ++ ": [1, 2]}".

(** A client with the default rate-limit code and cache life, whose
    auth dictionary is at reference [0]. *)
Definition client : BaseAPI := BaseAPI_init "http://x/" 403 Forever 0%nat.

(** A client that takes status 200 for its rate-limit code. *)
Definition client_rl200 : BaseAPI := BaseAPI_init "http://x/" 200 Forever 0%nat.

(** A client whose cache entries live ten seconds. *)
Definition client_ttl10 : BaseAPI := BaseAPI_init "http://x/" 403 (Seconds 10) 0%nat.

(** A server that gives the same reply to every request. *)
Definition constant_server (r : Response)
  : list http_request -> http_request -> result Response :=
  fun _ _ => Ok r.

(** A server whose reply is the number of requests it has seen. *)
Definition counting_server
  : list http_request -> http_request -> result Response :=
  fun history req =>
    Ok {| status_code := 200;
          text := str_of_int (Z.of_nat (List.length history));
          url := req_url req |}.

(** A server that answers every request with status 500. *)
Definition failing_server
  : list http_request -> http_request -> result Response :=
  fun _ req => Ok {| status_code := 500; text := "oops"; url := req_url req |}.

(** Reference [0] holds [{"token": "abc"}], reference [1] holds
    [{"token": "old", "name": "n"}], the others are empty. *)
Definition sample_heap : loc -> pydict :=
  fun l =>
    match l with
    | 0%nat => [("token", PStr "abc")]
    | 1%nat => [("token", PStr "old"); ("name", PStr "n")]
    | _ => []
    end.

Definition start : state := {| heap := sample_heap; requested := [] |}.

(** A query method as a subclass would write it and decorate with
    [_memoize]: it sends its first positional argument, and the
    keyword argument [limit], to the server. *)
Definition query (server : list http_request -> http_request -> result Response)
    (self : BaseAPI) (args : list pyval) (kwargs : pydict)
  : state -> result pyval * state :=
  _get Json.loads server self
    (py_str (hd PNone args) ++ "?"
       ++ _param self (PStr "limit")
            (match dict_get "limit" kwargs with Some v => v | None => PNone end)).

(** A server that cannot be reached. *)
Definition down_server
  : list http_request -> http_request -> result Response :=
  fun _ _ => Raise (ExOther "ConnectionError").

(** As [sample_heap], with the local variables of a call
    [method(self, id=7, q='a', limit=0, page=2)] at reference [2] and a
    second auth dictionary [{"secret": "s"}] at reference [3]. *)
Definition locals_heap : loc -> pydict :=
  fun l =>
    match l with
    | 0%nat => [("token", PStr "abc")]
    | 1%nat => [("token", PStr "old"); ("name", PStr "n")]
    | 2%nat => [("self", PNone); ("id", PInt 7); ("q", PStr "a");
                ("limit", PInt 0); ("page", PInt 2)]
    | 3%nat => [("secret", PStr "s")]
    | _ => []
    end.

Definition start_locals : state := {| heap := locals_heap; requested := [] |}.

End Sample.

(** ** Vocabulary of the specification *)

(** The falsy values the documentation of [_param] lists. *)
Definition falsy (v : pyval) : Prop :=
  v = PNone \/ v = PBool false \/ v = PInt 0 \/ v = PStr ""
  \/ v = PList [] \/ v = PTuple [] \/ v = PDict [].

(** An elapsed time [d] does not exceed the time-to-live. *)
Definition within (d : Z) (life : cache_life) : Prop :=
  match life with
  | Seconds t => d <= t
  | Forever => True
  end.

(** Two calls pass the same keyword-argument names. *)
Definition same_names (kwargs1 kwargs2 : pydict) : Prop :=
  forall x, In x (dict_keys kwargs1) <-> In x (dict_keys kwargs2).

(** The auth dictionary in query-string form, entry by entry. *)
Definition auth_query (d : pydict) : string :=
  String.concat ""
    (map (fun kv => py_str (PStr (fst kv)) ++ "=" ++ py_str (snd kv) ++ "&") d).

(** ** Vocabulary of the further properties *)

Definition mem_name (k : string) (names : list string) : bool :=
  existsb (fun n => (n =? k)%string) names.

(** The entries of [d] whose key is none of [names]. *)
Definition without (names : list string) (d : pydict) : pydict :=
  filter (fun kv => negb (mem_name (fst kv) names)) d.

(** The entries of [d] whose value is truthy. *)
Definition truthy_entries (d : pydict) : pydict :=
  filter (fun kv => truthy (snd kv)) d.

(** Every key stored in a memo is made of hashable arguments. *)
Definition keys_hashable {V : Type} (memo : list (memo_key * (V * Z))) : Prop :=
  Forall (fun entry => forallb hashable (snd (fst entry)) = true) memo.


(** * Properties *)

(** ** Strings *)

Lemma append_assoc (a b c : string) : (a ++ b) ++ c = a ++ (b ++ c).
Proof.
  induction a as [|x a IH]; simpl.
  - reflexivity.
  - now rewrite IH.
Qed.

Lemma append_nil_r (a : string) : a ++ "" = a.
Proof.
  induction a as [|x a IH]; simpl; [reflexivity | now rewrite IH].
Qed.

Lemma concat_nosep_cons (x : string) (l : list string) :
  String.concat "" (x :: l) = x ++ String.concat "" l.
Proof.
  destruct l as [|y l]; simpl.
  - now rewrite append_nil_r.
  - reflexivity.
Qed.

(** A running concatenation, as a [for] loop with [+=] builds it, is
    the concatenation of the pieces. *)
Lemma fold_left_append {A : Type} (g : A -> string) (l : list A) (acc : string) :
  fold_left (fun s x => s ++ g x) l acc = acc ++ String.concat "" (map g l).
Proof.
  revert acc; induction l as [|x l IH]; intro acc.
  - simpl. now rewrite append_nil_r.
  - cbn [fold_left map]. rewrite IH, concat_nosep_cons. apply append_assoc.
Qed.

(** ** Truth values *)

Lemma truthy_false_iff (v : pyval) : truthy v = false <-> falsy v.
Proof.
  unfold falsy; split.
  - destruct v as [|b|z|s|l|l|d]; simpl; intro H.
    + now left.
    + subst b. right; now left.
    + apply negb_false_iff, Z.eqb_eq in H. subst z. do 2 right; now left.
    + apply negb_false_iff, String.eqb_eq in H. subst s. do 3 right; now left.
    + destruct l; [|discriminate]. do 4 right; now left.
    + destruct l; [|discriminate]. do 5 right; now left.
    + destruct d; [|discriminate]. do 6 right; reflexivity.
  - intros [H|[H|[H|[H|[H|[H|H]]]]]]; subst v; reflexivity.
Qed.

(** C9.  [_param(name, value)] is [str(name) + '=' + str(value) + '&']
    when [value] is truthy, and the empty string when [value] is one of
    [None], [False], [0], the empty string or an empty container; a
    value is truthy exactly when it is none of these.  In particular
    [_param("limit", 10)] is ["limit=10&"], and [_param("q", 0)] and
    [_param("q", "")] are empty. *)
Theorem param_truthy_or_empty (self : BaseAPI) (param value : pyval) :
  (truthy value = true <-> ~ falsy value)
  /\ (~ falsy value ->
      _param self param value = py_str param ++ "=" ++ py_str value ++ "&")
  /\ (falsy value -> _param self param value = "")
  /\ _param self (PStr "limit") (PInt 10) = "limit=10&"
  /\ _param self (PStr "q") (PInt 0) = ""
  /\ _param self (PStr "q") (PStr "") = "".
Proof.
  assert (Ht : truthy value = true <-> ~ falsy value).
  { rewrite <- truthy_false_iff. destruct (truthy value); split; congruence. }
  split; [exact Ht|]. split; [|split].
  - intro H. apply Ht in H. unfold _param. now rewrite H.
  - intro H. apply truthy_false_iff in H. unfold _param. now rewrite H.
  - repeat split.
Qed.

(** ** Status classification *)

Section StatusTheory.

Variable json_loads : string -> option pyval.

Lemma truthy_text (s : string) : truthy (PStr s) = true <-> s <> "".
Proof.
  simpl. rewrite negb_true_iff. apply String.eqb_neq.
Qed.

(** The success path: a 2xx status with a body passes the check. *)
Lemma check_status_ok (self : BaseAPI) (response : Response) :
  status_code response / 100 = 2 ->
  text response <> "" ->
  _check_status json_loads self response = Ok tt.
Proof.
  intros Hsc Ht. unfold _check_status. cbv zeta.
  apply Z.eqb_eq in Hsc. rewrite Hsc.
  apply truthy_text in Ht. now rewrite Ht.
Qed.

(** C4.  On a response whose status code [s] has [s // 100 == 2],
    [_check_status] returns normally when the body is not empty and
    fails the assertion ['Invalid response from server'] when it is
    empty. *)
Theorem check_status_2xx (self : BaseAPI) (response : Response) :
  status_code response / 100 = 2 ->
  (text response <> "" -> _check_status json_loads self response = Ok tt)
  /\ (text response = "" ->
      _check_status json_loads self response
      = Raise (ExAssertionError "Invalid response from server")).
Proof.
  intro Hsc. split; intro Ht.
  - now apply check_status_ok.
  - unfold _check_status. cbv zeta.
    apply Z.eqb_eq in Hsc. rewrite Hsc, Ht. reflexivity.
Qed.

(** C3, as amended.  On a response whose status code equals the
    configured rate-limit code and is not a 2xx code, [_check_status]
    raises [RateLimitError] made from that code, whatever the body. *)
Theorem check_status_rate_limit (self : BaseAPI) (response : Response) :
  status_code response = _rate_limit_status_code self ->
  status_code response / 100 <> 2 ->
  _check_status json_loads self response
  = Raise (RateLimitError (PInt (_rate_limit_status_code self))).
Proof.
  intros Heq Hsc. unfold _check_status. cbv zeta.
  apply Z.eqb_neq in Hsc. rewrite Hsc.
  apply Z.eqb_eq in Heq. now rewrite Heq.
Qed.

(** C5.  On a response with status 401, when the rate-limit code is
    not 401, whose body decodes to a JSON object with the field
    [error_msg], [_check_status] raises [APIError] with the value of
    that field. *)
Theorem check_status_401 (self : BaseAPI) (response : Response)
    (fields : pydict) (msg : pyval) :
  status_code response = 401 ->
  _rate_limit_status_code self <> 401 ->
  json_loads (text response) = Some (PDict fields) ->
  dict_get "error_msg" fields = Some msg ->
  _check_status json_loads self response = Raise (APIError msg).
Proof.
  intros Hsc Hrl Hjson Hmsg. unfold _check_status, json_loads_r. cbv zeta.
  rewrite Hsc. change (401 / 100 =? 2) with false. cbv iota.
  assert (H : (401 =? _rate_limit_status_code self) = false)
    by (apply Z.eqb_neq; congruence).
  rewrite H, Hjson. cbn. now rewrite Hmsg.
Qed.

(** C6.  On a response whose status code is not 2xx, not the
    rate-limit code and not 401, [_check_status] raises [ValueError]
    whose message holds the status code and the URL of the
    response. *)
Theorem check_status_unhandled (self : BaseAPI) (response : Response) :
  status_code response / 100 <> 2 ->
  status_code response <> _rate_limit_status_code self ->
  status_code response <> 401 ->
  _check_status json_loads self response
  = Raise (ExValueError ("Status code unhandled: "
                           ++ str_of_int (status_code response)
                           ++ " for URL " ++ url response)).
Proof.
  intros H2 Hrl H401. unfold _check_status. cbv zeta.
  apply Z.eqb_neq in H2, Hrl, H401. rewrite H2, Hrl, H401. reflexivity.
Qed.

End StatusTheory.

(** ** Dictionaries *)

Lemma dict_get_set_same (k : string) (v : pyval) (d : pydict) :
  dict_get k (dict_set k v d) = Some v.
Proof.
  induction d as [|[k' v'] d IH]; simpl.
  - now rewrite String.eqb_refl.
  - destruct (String.eqb k' k) eqn:E; simpl; rewrite E; [reflexivity | exact IH].
Qed.

Lemma dict_get_set_other (k k' : string) (v : pyval) (d : pydict) :
  k <> k' -> dict_get k' (dict_set k v d) = dict_get k' d.
Proof.
  intro Hne. induction d as [|[k0 v0] d IH]; simpl.
  - apply String.eqb_neq in Hne. now rewrite Hne.
  - destruct (String.eqb k0 k) eqn:E; simpl.
    + apply String.eqb_eq in E. subst k0.
      apply String.eqb_neq in Hne. now rewrite Hne.
    + now rewrite IH.
Qed.

Lemma dict_get_absent (k : string) (d : pydict) :
  ~ In k (dict_keys d) -> dict_get k d = None.
Proof.
  induction d as [|[k' v'] d IH]; simpl; intro H.
  - reflexivity.
  - destruct (String.eqb_spec k' k) as [->|Hne].
    + exfalso. apply H. now left.
    + apply IH. intro Hin. apply H. now right.
Qed.

(** After [d.update(other)] a key of [other] has the value [other]
    gives it, and any other key keeps the value it had in [d]. *)
Lemma dict_get_update (k : string) (other : pydict) :
  NoDup (dict_keys other) ->
  forall d : pydict,
    dict_get k (dict_update d other)
    = match dict_get k other with
      | Some v => Some v
      | None => dict_get k d
      end.
Proof.
  unfold dict_update.
  induction other as [|[k0 v0] other IH]; intros Hnd d.
  - reflexivity.
  - cbn [fold_left fst snd dict_get].
    cbn [dict_keys map fst] in Hnd. inversion Hnd as [|? ? Hnotin Hnd']; subst.
    rewrite (IH Hnd').
    destruct (String.eqb_spec k0 k) as [->|Hne].
    + rewrite (dict_get_absent _ _ Hnotin). apply dict_get_set_same.
    + destruct (dict_get k other); [reflexivity|].
      now apply dict_get_set_other.
Qed.

(** ** Transport *)

Section TransportTheory.

Variable json_loads : string -> option pyval.
Variable server : list http_request -> http_request -> result Response.

Lemma key_is_auth_query (self : BaseAPI) (st : state) :
  _key self st = (Ok (auth_query (heap st (_auth_dict self))), st).
Proof.
  unfold _key, bind, read_dict, ret, auth_query.
  now rewrite (fold_left_append
                 (fun kv => py_str (PStr (fst kv)) ++ "=" ++ py_str (snd kv) ++ "&")).
Qed.

(** What [_get] does, in one equation: one GET request, then the
    classification of the reply, then the decoding of its body. *)
Lemma get_unfold (self : BaseAPI) (qstring : string) (st : state) :
  let req := {| req_method := GET;
                req_url := (_api self ++ qstring) ++ auth_query (heap st (_auth_dict self));
                req_data := None |} in
  let st' := {| heap := heap st; requested := (requested st ++ [req])%list |} in
  _get json_loads server self qstring st
  = match server (requested st) req with
    | Ok response =>
        match _check_status json_loads self response with
        | Ok _ => (json_loads_r json_loads (text response), st')
        | Raise e => (Raise e, st')
        end
    | Raise e => (Raise e, st')
    end.
Proof.
  cbv zeta. unfold _get. unfold bind at 1. rewrite key_is_auth_query.
  unfold bind, http_call, lift. cbv beta iota. cbn [heap requested].
  rewrite append_assoc.
  destruct (server _ _) as [response|e]; [|reflexivity].
  destruct (_check_status json_loads self response); reflexivity.
Qed.

(** C8.  [_get(qstring)] requests the URL
    [base_url + qstring + A], where [A] joins
    [str(key) + '=' + str(value) + '&'] over the auth dictionary in
    insertion order; after [set_auth] with [{"token": "abc"}] the
    requested URL ends in [token=abc&]; when the reply has a 2xx
    status and a body that is not empty and decodes, [_get] returns
    the decoded body. *)
Theorem get_requests_url_with_auth (self : BaseAPI) (qstring : string) (st : state) :
  let A := auth_query (heap st (_auth_dict self)) in
  let req := {| req_method := GET;
                req_url := (_api self ++ qstring) ++ A;
                req_data := None |} in
  requested (snd (_get json_loads server self qstring st)) = (requested st ++ [req])%list
  /\ (forall auth : loc,
        heap st auth = [("token", PStr "abc")] ->
        requested (snd (_get json_loads server (set_auth self auth) qstring st))
        = (requested st
             ++ [{| req_method := GET;
                    req_url := (_api self ++ qstring) ++ "token=abc&";
                    req_data := None |}])%list)
  /\ (forall (response : Response) (body : pyval),
        server (requested st) req = Ok response ->
        status_code response / 100 = 2 ->
        text response <> "" ->
        json_loads (text response) = Some body ->
        fst (_get json_loads server self qstring st) = Ok body).
Proof.
  cbv zeta.
  assert (Hlog : forall self0,
             requested (snd (_get json_loads server self0 qstring st))
             = (requested st
                  ++ [{| req_method := GET;
                         req_url := (_api self0 ++ qstring)
                                      ++ auth_query (heap st (_auth_dict self0));
                         req_data := None |}])%list).
  { intro self0. rewrite get_unfold.
    destruct (server _ _) as [response|e]; [|reflexivity].
    destruct (_check_status json_loads self0 response); reflexivity. }
  split; [apply Hlog|]. split.
  - intros auth Hauth. rewrite Hlog. cbn [set_auth _api _auth_dict].
    rewrite Hauth. reflexivity.
  - intros response body Hreply Hsc Htext Hjson.
    rewrite get_unfold, Hreply.
    rewrite (check_status_ok json_loads self response Hsc Htext).
    unfold json_loads_r. now rewrite Hjson.
Qed.

(** C10.  [_put_post_delete] updates the caller's payload dictionary
    in place with the auth dictionary: afterwards that dictionary is
    the old one updated with the auth entries, every auth key has its
    auth value in it, the other keys are untouched, it has changed
    whenever an auth entry was not already in it, and it is what was
    sent.  [_put], [_post] and [_delete] are this function with their
    HTTP verb. *)
Theorem put_post_delete_updates_payload (self : BaseAPI) (endpoint : string)
    (payload : loc) (verb : http_method) (st : state) :
  let auth := heap st (_auth_dict self) in
  let st' := snd (_put_post_delete json_loads server self endpoint payload verb st) in
  NoDup (dict_keys auth) ->
  heap st' payload = dict_update (heap st payload) auth
  /\ (forall k v, dict_get k auth = Some v -> dict_get k (heap st' payload) = Some v)
  /\ (forall k, dict_get k auth = None ->
                dict_get k (heap st' payload) = dict_get k (heap st payload))
  /\ ((exists k v, dict_get k auth = Some v /\ dict_get k (heap st payload) <> Some v) ->
      heap st' payload <> heap st payload)
  /\ requested st'
     = (requested st ++ [{| req_method := verb;
                            req_url := _api self ++ endpoint;
                            req_data := Some (heap st' payload) |}])%list
  /\ _put json_loads server self endpoint payload
     = _put_post_delete json_loads server self endpoint payload PUT
  /\ _post json_loads server self endpoint payload
     = _put_post_delete json_loads server self endpoint payload POST
  /\ _delete json_loads server self endpoint payload
     = _put_post_delete json_loads server self endpoint payload DELETE.
Proof.
  cbv zeta. intro Hnd.
  set (merged := dict_update (heap st payload) (heap st (_auth_dict self))).
  assert (Hrun : snd (_put_post_delete json_loads server self endpoint payload verb st)
                 = {| heap := heap_set (heap st) payload merged;
                      requested := requested st
                        ++ [{| req_method := verb;
                               req_url := _api self ++ endpoint;
                               req_data := Some merged |}] |}).
  { unfold _put_post_delete, bind, read_dict, write_dict, http_call, lift.
    cbn [heap requested]. fold merged.
    replace (heap_set (heap st) payload merged payload) with merged
      by (unfold heap_set; now rewrite Nat.eqb_refl).
    destruct (server _ _) as [response|e]; [|reflexivity].
    destruct (_check_status json_loads self response); reflexivity. }
  rewrite Hrun. cbn [heap requested]. unfold heap_set. rewrite Nat.eqb_refl.
  assert (Hin : forall k v, dict_get k (heap st (_auth_dict self)) = Some v ->
                            dict_get k merged = Some v).
  { intros k v Hk. unfold merged. rewrite (dict_get_update k _ Hnd), Hk.
    reflexivity. }
  repeat split.
  - exact Hin.
  - intros k Hk. unfold merged. rewrite (dict_get_update k _ Hnd), Hk.
    reflexivity.
  - intros [k [v [Hk Hold]]] Heq. apply Hold. rewrite <- Heq. now apply Hin.
Qed.

End TransportTheory.

(** ** Cache keys *)

Lemma py_eqb_refl : forall v : pyval, hashable v = true -> py_eqb v v = true.
Proof.
  fix IH 1. intros [|b|z|s|l|l|d]; simpl; intro H.
  - reflexivity.
  - apply Bool.eqb_reflx.
  - apply Z.eqb_refl.
  - apply String.eqb_refl.
  - discriminate.
  - induction l as [|x l IHl]; [reflexivity|].
    simpl in H. apply andb_true_iff in H. destruct H as [Hx Hl].
    rewrite (IH x Hx). simpl. exact (IHl Hl).
  - discriminate.
Qed.

Lemma args_eqb_refl (args : list pyval) :
  forallb hashable args = true -> args_eqb args args = true.
Proof.
  induction args as [|x args IH]; simpl; intro H; [reflexivity|].
  apply andb_true_iff in H. destruct H as [Hx Hl].
  now rewrite (py_eqb_refl x Hx), (IH Hl).
Qed.

Lemma subsetb_incl (a b : list string) : subsetb a b = true <-> incl a b.
Proof.
  unfold subsetb, incl. rewrite forallb_forall.
  split; intros H x Hx.
  - apply H in Hx. apply existsb_exists in Hx. destruct Hx as [y [Hy E]].
    apply String.eqb_eq in E. now subst y.
  - apply existsb_exists. exists x. split; [now apply H | apply String.eqb_refl].
Qed.

Lemma frozenset_eqb_iff (a b : list string) :
  frozenset_eqb a b = true <-> (forall x, In x a <-> In x b).
Proof.
  unfold frozenset_eqb. rewrite andb_true_iff, !subsetb_incl. unfold incl.
  split.
  - intros [H1 H2] x. split; auto.
  - intro H. split; intros x Hx; now apply H.
Qed.

(** Equal sets of names are interchangeable in a comparison. *)
Lemma frozenset_eqb_congr (a b c : list string) :
  (forall x, In x b <-> In x c) -> frozenset_eqb a b = frozenset_eqb a c.
Proof.
  intro Hbc. apply eq_true_iff_eq. rewrite !frozenset_eqb_iff.
  split; intros H x; rewrite (H x); [apply Hbc | symmetry; apply Hbc].
Qed.

Lemma key_eqb_same_names (k : memo_key) (args : list pyval) (kwargs1 kwargs2 : pydict) :
  same_names kwargs1 kwargs2 ->
  key_eqb k (make_key args kwargs1) = key_eqb k (make_key args kwargs2).
Proof.
  intro Hn. unfold key_eqb, make_key, frozenset. cbn [fst snd].
  now rewrite (frozenset_eqb_congr (fst k) _ _ Hn).
Qed.

Lemma key_eqb_refl (args : list pyval) (kwargs : pydict) :
  forallb hashable args = true ->
  key_eqb (make_key args kwargs) (make_key args kwargs) = true.
Proof.
  intro H. unfold key_eqb, make_key. cbn [fst snd].
  rewrite (args_eqb_refl args H), andb_true_r.
  apply frozenset_eqb_iff. intro x. reflexivity.
Qed.

Lemma outlived_false_iff (d : Z) (life : cache_life) :
  outlived d life = false <-> within d life.
Proof.
  destruct life as [t|]; simpl.
  - rewrite Z.ltb_ge. reflexivity.
  - split; trivial.
Qed.

Lemma outlived_true_iff (d : Z) (life : cache_life) :
  outlived d life = true <-> ~ within d life.
Proof.
  rewrite <- outlived_false_iff. destruct (outlived d life); split; congruence.
Qed.

(** ** The memo dictionary and the wrapper *)

Section MemoizeTheory.

Variables St V : Type.
Variable f : BaseAPI -> list pyval -> pydict -> St -> result V * St.

Lemma memo_get_congr (key1 key2 : memo_key) (memo : memo_t V) :
  (forall k, key_eqb k key1 = key_eqb k key2) ->
  memo_get key1 memo = memo_get key2 memo.
Proof.
  intro H. induction memo as [|[k e] memo IH]; simpl; [reflexivity|].
  now rewrite (H k), IH.
Qed.

Lemma memo_get_same_names (args : list pyval) (kwargs1 kwargs2 : pydict)
    (memo : memo_t V) :
  same_names kwargs1 kwargs2 ->
  memo_get (make_key args kwargs1) memo = memo_get (make_key args kwargs2) memo.
Proof.
  intro Hn. apply memo_get_congr. intro k. now apply key_eqb_same_names.
Qed.

(** Reading a key just assigned gives what was assigned. *)
Lemma memo_get_set (key : memo_key) (e : V * Z) (memo : memo_t V) :
  key_eqb key key = true ->
  memo_get key (memo_set key e memo) = Some e.
Proof.
  intro Hrefl. induction memo as [|[k e'] memo IH]; simpl.
  - now rewrite Hrefl.
  - destruct (key_eqb k key) eqn:E; simpl; rewrite E; [reflexivity | exact IH].
Qed.

(** A call that finds a live entry returns it and does nothing
    else. *)
Lemma memoized_hit (now : Z) (instance : BaseAPI) (args : list pyval)
    (kwargs : pydict) (memo : memo_t V) (s : St) (v : V) (stamp : Z) :
  forallb hashable args = true ->
  memo_get (make_key args kwargs) memo = Some (v, stamp) ->
  outlived (now - stamp) (_cache_life instance) = false ->
  memoized f now instance args kwargs memo s = (Ok v, memo, s).
Proof.
  intros Hh Hget Hlive. unfold memoized, must_call.
  rewrite Hh. cbn [negb]. cbv zeta. rewrite Hget, Hlive, Hget. reflexivity.
Qed.

(** A call that finds no entry, or an entry that has outlived the
    cache life, calls the wrapped function; its value is stored under
    the current time, its exception is passed on. *)
Lemma memoized_miss (now : Z) (instance : BaseAPI) (args : list pyval)
    (kwargs : pydict) (memo : memo_t V) (s : St) :
  forallb hashable args = true ->
  must_call (make_key args kwargs) now instance memo = true ->
  memoized f now instance args kwargs memo s
  = match f instance args kwargs s with
    | (Ok v, s') => (Ok v, memo_set (make_key args kwargs) (v, now) memo, s')
    | (Raise e, s') => (Raise e, memo, s')
    end.
Proof.
  intros Hh Hcall. unfold memoized. rewrite Hh. cbn [negb]. cbv zeta.
  rewrite Hcall. destruct (f instance args kwargs s) as [[v|e] s']; [|reflexivity].
  rewrite memo_get_set by now apply key_eqb_refl. reflexivity.
Qed.

Lemma memoized_ok_hashable (now : Z) (instance : BaseAPI) (args : list pyval)
    (kwargs : pydict) (memo memo' : memo_t V) (s s' : St) (v : V) :
  memoized f now instance args kwargs memo s = (Ok v, memo', s') ->
  forallb hashable args = true.
Proof.
  unfold memoized. destruct (forallb hashable args); [reflexivity|].
  cbn [negb]. discriminate.
Qed.

(** After a call that returned a value, the memo holds that value
    under the key of the call. *)
Lemma memoized_ok_entry (now : Z) (instance : BaseAPI) (args : list pyval)
    (kwargs : pydict) (memo memo' : memo_t V) (s s' : St) (v : V) :
  memoized f now instance args kwargs memo s = (Ok v, memo', s') ->
  exists stamp, memo_get (make_key args kwargs) memo' = Some (v, stamp).
Proof.
  intro Hcall. pose proof (memoized_ok_hashable _ _ _ _ _ _ _ _ _ Hcall) as Hh.
  destruct (must_call (make_key args kwargs) now instance memo) eqn:Em.
  - rewrite (memoized_miss _ _ _ _ _ _ Hh Em) in Hcall.
    destruct (f instance args kwargs s) as [[v0|e] s0]; [|discriminate].
    injection Hcall as -> <- _. exists now.
    apply memo_get_set. now apply key_eqb_refl.
  - unfold must_call in Em.
    destruct (memo_get (make_key args kwargs) memo) as [[v0 stamp]|] eqn:Eg;
      [|discriminate].
    rewrite (memoized_hit _ _ _ _ _ _ _ _ Hh Eg Em) in Hcall.
    injection Hcall as -> <- _. now exists stamp.
Qed.

(** C1.  Let a call at time [T] have called the wrapped function and
    stored its value [v] with timestamp [T].  A later call at time
    [T + d] with the same positional arguments and the same keyword
    names, on a receiver whose cache life is [t], returns [v] and
    leaves the memo and the state of the wrapped function as they
    are when [d <= t]; when [d > t] it is the call of the wrapped
    function, whose value replaces the entry, with timestamp
    [T + d]. *)
Theorem memoized_repeat_within_ttl (T : Z) (inst : BaseAPI) (args : list pyval)
    (kwargs : pydict) (memo memo1 : memo_t V) (s s1 : St) (v : V) :
  must_call (make_key args kwargs) T inst memo = true ->
  memoized f T inst args kwargs memo s = (Ok v, memo1, s1) ->
  memo_get (make_key args kwargs) memo1 = Some (v, T)
  /\ forall (d : Z) (inst' : BaseAPI) (kwargs' : pydict) (s' : St),
      same_names kwargs kwargs' ->
      (within d (_cache_life inst') ->
       memoized f (T + d) inst' args kwargs' memo1 s' = (Ok v, memo1, s'))
      /\ (~ within d (_cache_life inst') ->
          memoized f (T + d) inst' args kwargs' memo1 s'
          = match f inst' args kwargs' s' with
            | (Ok v', s'') =>
                (Ok v', memo_set (make_key args kwargs') (v', T + d) memo1, s'')
            | (Raise e, s'') => (Raise e, memo1, s'')
            end
          /\ forall v' s'',
              f inst' args kwargs' s' = (Ok v', s'') ->
              memo_get (make_key args kwargs)
                (memo_set (make_key args kwargs') (v', T + d) memo1)
              = Some (v', T + d)).
Proof.
  intros Hmust Hfirst.
  pose proof (memoized_ok_hashable _ _ _ _ _ _ _ _ _ Hfirst) as Hh.
  assert (Hentry : memo_get (make_key args kwargs) memo1 = Some (v, T)).
  { rewrite (memoized_miss _ _ _ _ _ _ Hh Hmust) in Hfirst.
    destruct (f inst args kwargs s) as [[v0|e] s0]; [|discriminate].
    injection Hfirst as -> <- _.
    apply memo_get_set. now apply key_eqb_refl. }
  split; [exact Hentry|].
  intros d inst' kwargs' s' Hn.
  assert (Hentry' : memo_get (make_key args kwargs') memo1 = Some (v, T))
    by now rewrite <- (memo_get_same_names args kwargs kwargs' memo1 Hn).
  assert (Hage : T + d - T = d) by lia.
  split.
  - intro Hw. apply memoized_hit with (stamp := T); trivial.
    rewrite Hage. now apply outlived_false_iff.
  - intro Hw. split.
    + apply memoized_miss; trivial.
      unfold must_call. rewrite Hentry', Hage. now apply outlived_true_iff.
    + intros v' s'' _.
      rewrite (memo_get_same_names args kwargs kwargs' _ Hn).
      apply memo_get_set. now apply key_eqb_refl.
Qed.

(** C2.  The cache key holds the keyword names and not the keyword
    values: two keyword dictionaries with the same names give the
    same key, and after a call that returned [v], a call with the
    same positional arguments and the same keyword names made while
    the entry is live returns [v], whatever its keyword values. *)
Theorem memo_key_ignores_kwarg_values (T1 : Z) (inst1 : BaseAPI)
    (args : list pyval) (kwargs1 : pydict) (memo memo1 : memo_t V)
    (s s1 : St) (v : V) :
  memoized f T1 inst1 args kwargs1 memo s = (Ok v, memo1, s1) ->
  (forall kwargs2 : pydict,
      dict_keys kwargs2 = dict_keys kwargs1 ->
      make_key args kwargs2 = make_key args kwargs1)
  /\ exists stamp : Z,
      memo_get (make_key args kwargs1) memo1 = Some (v, stamp)
      /\ forall (T2 : Z) (inst2 : BaseAPI) (kwargs2 : pydict) (s2 : St),
          same_names kwargs1 kwargs2 ->
          within (T2 - stamp) (_cache_life inst2) ->
          memoized f T2 inst2 args kwargs2 memo1 s2 = (Ok v, memo1, s2).
Proof.
  intro Hfirst. split.
  - intros kwargs2 Hk. unfold make_key, frozenset. now rewrite Hk.
  - destruct (memoized_ok_entry _ _ _ _ _ _ _ _ _ Hfirst) as [stamp Hentry].
    exists stamp. split; [exact Hentry|].
    intros T2 inst2 kwargs2 s2 Hn Hw.
    apply memoized_hit with (stamp := stamp).
    + exact (memoized_ok_hashable _ _ _ _ _ _ _ _ _ Hfirst).
    + now rewrite <- (memo_get_same_names args kwargs1 kwargs2 memo1 Hn).
    + now apply outlived_false_iff.
Qed.

(** C7.  The memo changes only when the wrapped function has
    returned a value, which is then stored under the key of the call;
    when the wrapped function raises, the memo is left as it was, and
    the call that reached the wrapped function raises the same
    exception. *)
Theorem memoized_stores_only_on_success (now : Z) (inst : BaseAPI)
    (args : list pyval) (kwargs : pydict) (memo memo' : memo_t V)
    (s s' : St) (r : result V) :
  memoized f now inst args kwargs memo s = (r, memo', s') ->
  (memo' <> memo ->
   exists v : V,
     f inst args kwargs s = (Ok v, s') /\ r = Ok v
     /\ memo' = memo_set (make_key args kwargs) (v, now) memo)
  /\ (forall (e : exn) (s1 : St),
        f inst args kwargs s = (Raise e, s1) ->
        memo' = memo
        /\ (forallb hashable args = true ->
            must_call (make_key args kwargs) now inst memo = true ->
            r = Raise e /\ s' = s1)).
Proof.
  intro Hcall.
  destruct (forallb hashable args) eqn:Hh.
  - destruct (must_call (make_key args kwargs) now inst memo) eqn:Em.
    + rewrite (memoized_miss _ _ _ _ _ _ Hh Em) in Hcall.
      destruct (f inst args kwargs s) as [[v|e] s0].
      * injection Hcall as <- <- <-. split.
        -- intros _. exists v. repeat split.
        -- intros e s1 Hf. discriminate.
      * injection Hcall as <- <- <-. split.
        -- intro Hne. now contradiction Hne.
        -- intros e0 s1 Hf. injection Hf as -> ->. repeat split.
    + unfold must_call in Em.
      destruct (memo_get (make_key args kwargs) memo) as [[v0 stamp]|] eqn:Eg;
        [|discriminate].
      rewrite (memoized_hit _ _ _ _ _ _ _ _ Hh Eg Em) in Hcall.
      injection Hcall as <- <- <-. split.
      * intro Hne. now contradiction Hne.
      * intros e s1 _. split; [reflexivity | discriminate].
  - unfold memoized in Hcall. rewrite Hh in Hcall. cbn [negb] in Hcall.
    injection Hcall as <- <- <-. split.
    + intro Hne. now contradiction Hne.
    + intros e s1 _. split; [reflexivity | discriminate].
Qed.

End MemoizeTheory.

(** * The program on concrete inputs *)

Import Sample.

(** [_param] on ["limit", 10], on ["q", None] and on a list. *)
Lemma param_truthy_or_empty_witness :
  _param client (PStr "limit") (PInt 10) = "limit=10&"
  /\ _param client (PStr "q") PNone = ""
  /\ _param client (PStr "ids") (PList [PInt 1; PInt 2]) = "ids=[1, 2]&".
Proof.
  destruct (param_truthy_or_empty client (PStr "q") PNone)
    as [_ [_ [Hfalsy [Hlimit _]]]].
  destruct (param_truthy_or_empty client (PStr "ids") (PList [PInt 1; PInt 2]))
    as [_ [Htruthy _]].
  split; [exact Hlimit|]. split.
  - apply Hfalsy. left. reflexivity.
  - apply Htruthy. unfold falsy. intuition discriminate.
Defined.

(** Statuses 200, 201, 204 and 299 with and without a body. *)
Lemma check_status_2xx_witness :
  Forall
    (fun sc =>
       sc / 100 = 2
       /\ _check_status Json.loads client (mkResponse sc "ok" "http://x/y") = Ok tt
       /\ _check_status Json.loads client (mkResponse sc "" "http://x/y")
          = Raise (ExAssertionError "Invalid response from server"))
    [200; 201; 204; 299].
Proof.
  assert (H : forall sc, sc / 100 = 2 ->
              sc / 100 = 2
              /\ _check_status Json.loads client (mkResponse sc "ok" "http://x/y") = Ok tt
              /\ _check_status Json.loads client (mkResponse sc "" "http://x/y")
                 = Raise (ExAssertionError "Invalid response from server")).
  { intros sc Hsc.
    destruct (check_status_2xx Json.loads client (mkResponse sc "ok" "http://x/y") Hsc)
      as [Hbody _].
    destruct (check_status_2xx Json.loads client (mkResponse sc "" "http://x/y") Hsc)
      as [_ Hempty].
    split; [exact Hsc|]. split; [apply Hbody; discriminate | apply Hempty; reflexivity]. }
  repeat (apply Forall_cons; [apply H; reflexivity|]). apply Forall_nil.
Defined.

(** A client configured with rate-limit code 200 receives status 200
    with a body: the status equals the configured code, and the call
    returns normally instead of raising [RateLimitError]. *)
Lemma check_status_rate_limit_2xx_counterexample :
  let response := mkResponse 200 "ok" "http://x/y" in
  status_code response = _rate_limit_status_code client_rl200
  /\ _check_status Json.loads client_rl200 response = Ok tt
  /\ _check_status Json.loads client_rl200 response
     <> Raise (RateLimitError (PInt (_rate_limit_status_code client_rl200))).
Proof.
  cbv zeta. repeat split. discriminate.
Qed.

(** Status 403 on the default client, with two different bodies. *)
Lemma check_status_rate_limit_witness :
  _check_status Json.loads client (mkResponse 403 "" "http://x/y")
  = Raise (ExRateLimitError "403 Error/Rate Limit Encountered")
  /\ _check_status Json.loads client (mkResponse 403 invalid_token_body "http://x/y")
     = Raise (ExRateLimitError "403 Error/Rate Limit Encountered").
Proof.
  split.
  - apply (check_status_rate_limit Json.loads client (mkResponse 403 "" "http://x/y"));
      [reflexivity | discriminate].
  - apply (check_status_rate_limit Json.loads client
             (mkResponse 403 invalid_token_body "http://x/y"));
      [reflexivity | discriminate].
Defined.

(** Status 401 with the body [{"error_msg": "invalid token"}]. *)
Lemma check_status_401_witness :
  _check_status Json.loads client (mkResponse 401 invalid_token_body "http://x/y")
  = Raise (ExAPIError (PStr "invalid token")).
Proof.
  apply (check_status_401 Json.loads client
           (mkResponse 401 invalid_token_body "http://x/y")
           [("error_msg", PStr "invalid token")] (PStr "invalid token")).
  - reflexivity.
  - discriminate.
  - reflexivity.
  - reflexivity.
Defined.

(** Status 500 with URL [http://x/y]. *)
Lemma check_status_unhandled_witness :
  _check_status Json.loads client (mkResponse 500 "" "http://x/y")
  = Raise (ExValueError "Status code unhandled: 500 for URL http://x/y").
Proof.
  apply (check_status_unhandled Json.loads client (mkResponse 500 "" "http://x/y"));
    discriminate.
Defined.

(** A GET after [set_auth] with [{"token": "abc"}], answered with
    [{"items": [1, 2]}]. *)
Lemma get_requests_url_with_auth_witness :
  let server := constant_server (mkResponse 200 items_body "http://x/search") in
  let run := _get Json.loads server (set_auth client 0%nat) "search?q=a&" start in
  requested (snd run) = [mkRequest GET "http://x/search?q=a&token=abc&" None]
  /\ fst run = Ok (PDict [("items", PList [PInt 1; PInt 2])]).
Proof.
  cbv zeta.
  pose proof (get_requests_url_with_auth Json.loads
                (constant_server (mkResponse 200 items_body "http://x/search"))
                (set_auth client 0%nat) "search?q=a&" start) as H.
  cbv zeta in H. destruct H as [Hlog [_ Hbody]]. split.
  - exact Hlog.
  - apply (Hbody (mkResponse 200 items_body "http://x/search")).
    + reflexivity.
    + reflexivity.
    + discriminate.
    + reflexivity.
Defined.

(** A POST whose payload [{"token": "old", "name": "n"}] collides with
    the auth dictionary [{"token": "abc"}]. *)
Lemma put_post_delete_updates_payload_witness :
  let server := constant_server (mkResponse 200 items_body "http://x/things") in
  let st' := snd (_put_post_delete Json.loads server client "things" 1%nat POST start) in
  NoDup (dict_keys (heap start 0%nat))
  /\ heap st' 1%nat = [("token", PStr "abc"); ("name", PStr "n")]
  /\ heap st' 1%nat <> heap start 1%nat.
Proof.
  cbv zeta.
  assert (Hnd : NoDup (dict_keys (heap start (_auth_dict client)))).
  { constructor; [intros [] | constructor]. }
  split; [exact Hnd|].
  pose proof (put_post_delete_updates_payload Json.loads
                (constant_server (mkResponse 200 items_body "http://x/things"))
                client "things" 1%nat POST start) as H.
  cbv zeta in H. destruct (H Hnd) as [Hheap [_ [_ [Hchanged _]]]]. split.
  - exact Hheap.
  - apply Hchanged. exists "token", (PStr "abc"). split; [reflexivity | discriminate].
Defined.

(** A query cached for ten seconds, repeated after ten and after
    eleven seconds against a server whose replies change. *)
Lemma memoized_repeat_within_ttl_witness :
  let call := memoized (query counting_server) in
  let args := [PStr "artists"] in
  let kwargs := [("limit", PInt 5)] in
  let first := call 1000 client_ttl10 args kwargs [] start in
  let memo1 := snd (fst first) in
  let s1 := snd first in
  fst (fst first) = Ok (PInt 0)
  /\ call 1010 client_ttl10 args kwargs memo1 s1 = (Ok (PInt 0), memo1, s1)
  /\ fst (call 1011 client_ttl10 args kwargs memo1 s1)
     = (Ok (PInt 1), [(make_key args kwargs, (PInt 1, 1011))]).
Proof.
  cbv zeta.
  set (args := [PStr "artists"]). set (kwargs := [("limit", PInt 5)]).
  set (first := memoized (query counting_server) 1000 client_ttl10 args kwargs [] start).
  assert (Hfirst : first = (Ok (PInt 0), snd (fst first), snd first)) by reflexivity.
  assert (Hmust : must_call (V := pyval) (make_key args kwargs) 1000 client_ttl10 [] = true)
    by reflexivity.
  destruct (memoized_repeat_within_ttl state pyval (query counting_server)
              1000 client_ttl10 args kwargs [] (snd (fst first)) start (snd first)
              (PInt 0) Hmust Hfirst) as [_ Hnext].
  assert (Hn : same_names kwargs kwargs) by (intro x; reflexivity).
  split; [reflexivity|]. split.
  - apply (Hnext 10 client_ttl10 kwargs (snd first) Hn). simpl. lia.
  - destruct (Hnext 11 client_ttl10 kwargs (snd first) Hn) as [_ Hmiss].
    change (1000 + 11) with 1011 in Hmiss.
    rewrite (proj1 (Hmiss ltac:(simpl; lia))). reflexivity.
Defined.

(** The same query repeated with another value of [limit]: the cached
    value comes back, although the function would return something
    else. *)
Lemma memo_key_ignores_kwarg_values_witness :
  let call := memoized (query counting_server) in
  let args := [PStr "artists"] in
  let first := call 1000 client_ttl10 args [("limit", PInt 5)] [] start in
  let memo1 := snd (fst first) in
  let s1 := snd first in
  fst (fst first) = Ok (PInt 0)
  /\ call 1005 client_ttl10 args [("limit", PInt 7)] memo1 s1 = (Ok (PInt 0), memo1, s1)
  /\ fst (query counting_server client_ttl10 args [("limit", PInt 7)] s1) = Ok (PInt 1).
Proof.
  cbv zeta.
  set (args := [PStr "artists"]).
  set (first := memoized (query counting_server) 1000 client_ttl10 args
                  [("limit", PInt 5)] [] start).
  assert (Hfirst : first = (Ok (PInt 0), snd (fst first), snd first)) by reflexivity.
  destruct (memo_key_ignores_kwarg_values state pyval (query counting_server)
              1000 client_ttl10 args [("limit", PInt 5)] [] (snd (fst first))
              start (snd first) (PInt 0) Hfirst) as [_ [stamp [Hentry Hnext]]].
  assert (Hstamp : stamp = 1000) by (vm_compute in Hentry; congruence).
  split; [reflexivity|]. split; [|reflexivity].
  apply Hnext.
  - intro x. reflexivity.
  - rewrite Hstamp. simpl. lia.
Defined.

(** A query against a server that answers 500: the exception reaches
    the caller and the memo stays empty. *)
Lemma memoized_stores_only_on_success_witness :
  let args := [PStr "artists"] in
  let kwargs := [("limit", PInt 5)] in
  let run := memoized (query failing_server) 1000 client_ttl10 args kwargs [] start in
  fst (fst run)
  = Raise (ExValueError
             "Status code unhandled: 500 for URL http://x/artists?limit=5&token=abc&")
  /\ snd (fst run) = [].
Proof.
  cbv zeta.
  set (args := [PStr "artists"]). set (kwargs := [("limit", PInt 5)]).
  set (run := memoized (query failing_server) 1000 client_ttl10 args kwargs [] start).
  assert (Hrun : run = (fst (fst run), snd (fst run), snd run)) by reflexivity.
  destruct (memoized_stores_only_on_success state pyval (query failing_server)
              1000 client_ttl10 args kwargs [] (snd (fst run)) start (snd run)
              (fst (fst run)) Hrun) as [_ Hraise].
  destruct (Hraise
              (ExValueError
                 "Status code unhandled: 500 for URL http://x/artists?limit=5&token=abc&")
              (snd (query failing_server client_ttl10 args kwargs start))
              eq_refl) as [Hmemo Hexn].
  split.
  - apply Hexn; reflexivity.
  - exact Hmemo.
Defined.

(** * Further properties of the code *)

(** ** Status classification: when it succeeds, how it fails *)

Section StatusMore.

Variable json_loads : string -> option pyval.

(** X1.  [_check_status] returns normally exactly on a 2xx status
    with a body that is not empty: no other response passes. *)
Theorem check_status_ok_iff (self : BaseAPI) (response : Response) :
  _check_status json_loads self response = Ok tt
  <-> status_code response / 100 = 2 /\ text response <> "".
Proof.
  split.
  - unfold _check_status. cbv zeta.
    destruct (status_code response / 100 =? 2) eqn:E2.
    + apply Z.eqb_eq in E2.
      destruct (truthy (PStr (text response))) eqn:Et; [|discriminate].
      intros _. split; [exact E2 | now apply truthy_text].
    + destruct (status_code response =? _rate_limit_status_code self);
        [discriminate|].
      destruct (status_code response =? 401); [|discriminate].
      destruct (json_loads_r json_loads (text response)) as [v|e]; [|discriminate].
      destruct (py_getitem v "error_msg"); discriminate.
  - intros [Hsc Ht]. now apply check_status_ok.
Qed.

(** X2.  On a 401 that is not the rate-limit code, a body that does
    not decode raises the decoder's error, a JSON object without
    [error_msg] raises [KeyError('error_msg')], and a JSON value that
    is not an object raises [TypeError]: in none of these cases is an
    [APIError] raised. *)
Theorem check_status_401_malformed (self : BaseAPI) (response : Response) :
  status_code response = 401 ->
  _rate_limit_status_code self <> 401 ->
  (json_loads (text response) = None ->
   _check_status json_loads self response = Raise ExJSONDecodeError)
  /\ (forall fields : pydict,
        json_loads (text response) = Some (PDict fields) ->
        dict_get "error_msg" fields = None ->
        _check_status json_loads self response
        = Raise (ExKeyError (PStr "error_msg")))
  /\ (forall v : pyval,
        json_loads (text response) = Some v ->
        (forall fields, v <> PDict fields) ->
        _check_status json_loads self response = Raise ExTypeError).
Proof.
  intros Hsc Hrl.
  assert (Hstep : _check_status json_loads self response
                  = match json_loads_r json_loads (text response) with
                    | Ok response' =>
                        match py_getitem response' "error_msg" with
                        | Ok msg => Raise (APIError msg)
                        | Raise e => Raise e
                        end
                    | Raise e => Raise e
                    end).
  { unfold _check_status. cbv zeta. rewrite Hsc.
    change (401 / 100 =? 2) with false. cbv iota.
    assert (H : (401 =? _rate_limit_status_code self) = false)
      by (apply Z.eqb_neq; congruence).
    now rewrite H. }
  rewrite Hstep. unfold json_loads_r. split; [|split].
  - intro Hj. now rewrite Hj.
  - intros fields Hj Hmiss. rewrite Hj. cbn. now rewrite Hmiss.
  - intros v Hj Hnd. rewrite Hj.
    destruct v as [|b|z|s|l|l|d]; try reflexivity.
    now contradiction (Hnd d).
Qed.

End StatusMore.

(** ** Transport: failures, and what is left untouched *)

(** Assigning again the value a key already has changes nothing. *)
Lemma dict_set_same_value (k : string) (v : pyval) (d : pydict) :
  dict_get k d = Some v -> dict_set k v d = d.
Proof.
  induction d as [|[k' v'] d IH]; simpl; [discriminate|].
  destruct (String.eqb k' k); intro H.
  - now injection H as ->.
  - now rewrite (IH H).
Qed.

Lemma dict_get_in (k : string) (v : pyval) (d : pydict) :
  NoDup (dict_keys d) -> In (k, v) d -> dict_get k d = Some v.
Proof.
  induction d as [|[k' v'] d IH]; simpl; intros Hnd Hin; [contradiction|].
  inversion Hnd as [|? ? Hnotin Hnd']; subst.
  destruct Hin as [Heq|Hin].
  - injection Heq as -> ->. now rewrite String.eqb_refl.
  - destruct (String.eqb_spec k' k) as [->|Hne].
    + exfalso. apply Hnotin. change k with (fst (k, v)). now apply in_map.
    + now apply IH.
Qed.

(** Updating with entries the dictionary already has changes
    nothing. *)
Lemma dict_update_absorbed (other d : pydict) :
  (forall k v, In (k, v) other -> dict_get k d = Some v) ->
  dict_update d other = d.
Proof.
  unfold dict_update. induction other as [|[k v] other IH]; intro H.
  - reflexivity.
  - cbn [fold_left fst snd].
    rewrite (dict_set_same_value k v d) by (apply H; now left).
    apply IH. intros k' v' Hin. apply H. now right.
Qed.

Lemma dict_update_self (d : pydict) : NoDup (dict_keys d) -> dict_update d d = d.
Proof.
  intro Hnd. apply dict_update_absorbed. intros k v. now apply dict_get_in.
Qed.

Lemma dict_update_twice (d other : pydict) :
  NoDup (dict_keys other) ->
  dict_update (dict_update d other) other = dict_update d other.
Proof.
  intro Hnd. apply dict_update_absorbed. intros k v Hin.
  rewrite (dict_get_update k other Hnd), (dict_get_in k v other Hnd Hin).
  reflexivity.
Qed.

Lemma dict_keys_set (k : string) (v : pyval) (d : pydict) :
  dict_keys (dict_set k v d)
  = if mem_name k (dict_keys d) then dict_keys d else (dict_keys d ++ [k])%list.
Proof.
  unfold mem_name. induction d as [|[k' v'] d IH]; simpl.
  - reflexivity.
  - destruct (String.eqb k' k); simpl; [reflexivity|].
    rewrite IH. now destruct (existsb _ (dict_keys d)).
Qed.

Lemma mem_name_In (k : string) (names : list string) :
  mem_name k names = true <-> In k names.
Proof.
  unfold mem_name. rewrite existsb_exists. split.
  - intros [n [Hin E]]. apply String.eqb_eq in E. now subst n.
  - intro Hin. exists k. split; [exact Hin | apply String.eqb_refl].
Qed.

Lemma mem_name_false (k : string) (names : list string) :
  mem_name k names = false <-> ~ In k names.
Proof.
  rewrite <- mem_name_In. destruct (mem_name k names); split; congruence.
Qed.

(** The keys after [d.update(other)]: those of [d] in their order,
    then the new keys of [other] in theirs. *)
Lemma dict_keys_update (other : pydict) :
  NoDup (dict_keys other) ->
  forall d : pydict,
    dict_keys (dict_update d other)
    = (dict_keys d
         ++ filter (fun k => negb (mem_name k (dict_keys d))) (dict_keys other))%list.
Proof.
  unfold dict_update.
  induction other as [|[k v] other IH]; intros Hnd d.
  - simpl. now rewrite app_nil_r.
  - cbn [dict_keys map fst] in Hnd. inversion Hnd as [|? ? Hnotin Hnd']; subst.
    cbn [fold_left fst snd]. rewrite (IH Hnd'), dict_keys_set.
    cbn [dict_keys map fst filter].
    destruct (mem_name k (dict_keys d)) eqn:Ek; cbn [negb].
    + reflexivity.
    + rewrite <- app_assoc. cbn [app]. do 2 f_equal.
      apply filter_ext_in. intros x Hx. f_equal.
      apply eq_true_iff_eq. rewrite !mem_name_In, in_app_iff. split.
      * intros [H|[H|[]]]; [exact H | subst x; contradiction].
      * intro H. now left.
Qed.

Lemma NoDup_app_filter (l1 l2 : list string) :
  NoDup l1 -> NoDup l2 ->
  NoDup (l1 ++ filter (fun k => negb (mem_name k l1)) l2).
Proof.
  intros H1 H2. apply NoDup_app.
  - exact H1.
  - now apply NoDup_filter.
  - intros k Hk Hf. apply filter_In in Hf. destruct Hf as [_ Hf].
    apply negb_true_iff, mem_name_false in Hf. contradiction.
Qed.

Section TransportMore.

Variable json_loads : string -> option pyval.
Variable server : list http_request -> http_request -> result Response.

(** What [_put_post_delete] does, in one equation. *)
Lemma put_post_delete_unfold (self : BaseAPI) (endpoint : string)
    (payload : loc) (verb : http_method) (st : state) :
  let merged := dict_update (heap st payload) (heap st (_auth_dict self)) in
  let req := {| req_method := verb;
                req_url := _api self ++ endpoint;
                req_data := Some merged |} in
  let st' := {| heap := heap_set (heap st) payload merged;
                requested := requested st ++ [req] |} in
  _put_post_delete json_loads server self endpoint payload verb st
  = match server (requested st) req with
    | Ok response =>
        match _check_status json_loads self response with
        | Ok _ => (json_loads_r json_loads (text response), st')
        | Raise e => (Raise e, st')
        end
    | Raise e => (Raise e, st')
    end.
Proof.
  cbv zeta.
  unfold _put_post_delete, bind, read_dict, write_dict, http_call, lift.
  cbn [heap requested].
  replace (heap_set (heap st) payload
             (dict_update (heap st payload) (heap st (_auth_dict self))) payload)
    with (dict_update (heap st payload) (heap st (_auth_dict self)))
    by (unfold heap_set; now rewrite Nat.eqb_refl).
  destruct (server _ _) as [response|e]; [|reflexivity].
  destruct (_check_status json_loads self response); reflexivity.
Qed.

(** The dictionaries after [_put_post_delete], whatever its outcome. *)
Lemma put_post_delete_heap (self : BaseAPI) (endpoint : string)
    (payload : loc) (verb : http_method) (st : state) (l : loc) :
  heap (snd (_put_post_delete json_loads server self endpoint payload verb st)) l
  = if Nat.eqb l payload
    then dict_update (heap st payload) (heap st (_auth_dict self))
    else heap st l.
Proof.
  rewrite put_post_delete_unfold. cbv zeta.
  destruct (server _ _) as [response|e]; [|reflexivity].
  destruct (_check_status json_loads self response); reflexivity.
Qed.

Lemma put_post_delete_requested (self : BaseAPI) (endpoint : string)
    (payload : loc) (verb : http_method) (st : state) :
  requested (snd (_put_post_delete json_loads server self endpoint payload verb st))
  = (requested st
       ++ [{| req_method := verb;
              req_url := _api self ++ endpoint;
              req_data := Some (dict_update (heap st payload)
                                  (heap st (_auth_dict self))) |}])%list.
Proof.
  rewrite put_post_delete_unfold. cbv zeta.
  destruct (server _ _) as [response|e]; [|reflexivity].
  destruct (_check_status json_loads self response); reflexivity.
Qed.

(** X3.  [_get] catches nothing: an exception of the HTTP library
    and an exception of the status check both reach the caller, after
    the one request, and no dictionary has changed. *)
Theorem get_propagates_failure (self : BaseAPI) (qstring : string)
    (st : state) (e : exn) :
  let req := {| req_method := GET;
                req_url := (_api self ++ qstring)
                             ++ auth_query (heap st (_auth_dict self));
                req_data := None |} in
  server (requested st) req = Raise e
  \/ (exists response,
         server (requested st) req = Ok response
         /\ _check_status json_loads self response = Raise e) ->
  _get json_loads server self qstring st
  = (Raise e, {| heap := heap st; requested := requested st ++ [req] |}).
Proof.
  cbv zeta. intros [Hs | [response [Hs Hc]]]; rewrite get_unfold, Hs.
  - reflexivity.
  - now rewrite Hc.
Qed.

(** X4.  A 2xx reply whose body is not empty and does not decode
    makes [_get] raise the decoder's error. *)
Theorem get_undecodable_body (self : BaseAPI) (qstring : string)
    (st : state) (response : Response) :
  server (requested st)
    {| req_method := GET;
       req_url := (_api self ++ qstring) ++ auth_query (heap st (_auth_dict self));
       req_data := None |}
  = Ok response ->
  status_code response / 100 = 2 ->
  text response <> "" ->
  json_loads (text response) = None ->
  fst (_get json_loads server self qstring st) = Raise ExJSONDecodeError.
Proof.
  intros Hs Hsc Ht Hj. rewrite get_unfold, Hs.
  rewrite (check_status_ok json_loads self response Hsc Ht).
  unfold json_loads_r. now rewrite Hj.
Qed.

(** X5.  [_put_post_delete] returns the decoded body of a 2xx reply
    to the request that carries the merged payload, and passes on the
    exception of the HTTP library or of the status check. *)
Theorem put_post_delete_outcome (self : BaseAPI) (endpoint : string)
    (payload : loc) (verb : http_method) (st : state) :
  let req := {| req_method := verb;
                req_url := _api self ++ endpoint;
                req_data := Some (dict_update (heap st payload)
                                    (heap st (_auth_dict self))) |} in
  (forall (response : Response) (body : pyval),
      server (requested st) req = Ok response ->
      status_code response / 100 = 2 ->
      text response <> "" ->
      json_loads (text response) = Some body ->
      fst (_put_post_delete json_loads server self endpoint payload verb st) = Ok body)
  /\ (forall e : exn,
        server (requested st) req = Raise e
        \/ (exists response,
               server (requested st) req = Ok response
               /\ _check_status json_loads self response = Raise e) ->
        fst (_put_post_delete json_loads server self endpoint payload verb st)
        = Raise e).
Proof.
  cbv zeta. split.
  - intros response body Hs Hsc Ht Hj. rewrite put_post_delete_unfold. cbv zeta.
    rewrite Hs, (check_status_ok json_loads self response Hsc Ht).
    unfold json_loads_r. now rewrite Hj.
  - intros e [Hs | [response [Hs Hc]]]; rewrite put_post_delete_unfold; cbv zeta;
      rewrite Hs.
    + reflexivity.
    + now rewrite Hc.
Qed.

(** X6.  [_put_post_delete] changes no dictionary but the payload,
    and it leaves the auth dictionary as it is even when the caller
    passes the auth dictionary itself as the payload. *)
Theorem put_post_delete_frame (self : BaseAPI) (endpoint : string)
    (payload : loc) (verb : http_method) (st : state) :
  let st' := snd (_put_post_delete json_loads server self endpoint payload verb st) in
  NoDup (dict_keys (heap st (_auth_dict self))) ->
  (forall l : loc, l <> payload -> heap st' l = heap st l)
  /\ heap st' (_auth_dict self) = heap st (_auth_dict self).
Proof.
  cbv zeta. intro Hnd. split.
  - intros l Hne. rewrite put_post_delete_heap.
    apply Nat.eqb_neq in Hne. now rewrite Hne.
  - rewrite put_post_delete_heap.
    destruct (Nat.eqb_spec (_auth_dict self) payload) as [<-|Hne]; [|reflexivity].
    now apply dict_update_self.
Qed.

(** X7.  Sending the same payload dictionary a second time, with
    the same client, merges nothing new: the dictionary and the data
    sent are those of the first call. *)
Theorem put_post_delete_twice (self : BaseAPI) (endpoint1 endpoint2 : string)
    (payload : loc) (verb1 verb2 : http_method) (st : state) :
  let st1 := snd (_put_post_delete json_loads server self endpoint1 payload verb1 st) in
  let st2 := snd (_put_post_delete json_loads server self endpoint2 payload verb2 st1) in
  NoDup (dict_keys (heap st (_auth_dict self))) ->
  heap st2 payload = heap st1 payload
  /\ requested st2
     = (requested st1
          ++ [{| req_method := verb2;
                 req_url := _api self ++ endpoint2;
                 req_data := Some (heap st1 payload) |}])%list.
Proof.
  cbv zeta. intro Hnd.
  set (st1 := snd (_put_post_delete json_loads server self endpoint1 payload verb1 st)).
  assert (Hp : heap st1 payload
               = dict_update (heap st payload) (heap st (_auth_dict self))).
  { unfold st1. rewrite put_post_delete_heap. now rewrite Nat.eqb_refl. }
  assert (Ha : heap st1 (_auth_dict self) = heap st (_auth_dict self)).
  { unfold st1. rewrite put_post_delete_heap.
    destruct (Nat.eqb_spec (_auth_dict self) payload) as [<-|Hne]; [|reflexivity].
    now apply dict_update_self. }
  assert (Hm : dict_update (heap st1 payload) (heap st1 (_auth_dict self))
               = heap st1 payload).
  { rewrite Ha, Hp. now apply dict_update_twice. }
  split.
  - rewrite put_post_delete_heap, Nat.eqb_refl. exact Hm.
  - rewrite put_post_delete_requested, Hm. reflexivity.
Qed.

(** X8.  A payload dictionary that was sent once keeps the credentials
    merged into it: after [set_auth] with a dictionary that lacks a key
    of the old auth dictionary, sending the same payload again still
    sends that key with its old value. *)
Theorem put_post_delete_stale_auth (self : BaseAPI) (endpoint1 endpoint2 : string)
    (payload auth2 : loc) (verb1 verb2 : http_method) (st : state)
    (k : string) (v : pyval) :
  let st1 := snd (_put_post_delete json_loads server self endpoint1 payload verb1 st) in
  let st2 := snd (_put_post_delete json_loads server (set_auth self auth2)
                    endpoint2 payload verb2 st1) in
  NoDup (dict_keys (heap st (_auth_dict self))) ->
  NoDup (dict_keys (heap st auth2)) ->
  auth2 <> payload ->
  dict_get k (heap st (_auth_dict self)) = Some v ->
  dict_get k (heap st auth2) = None ->
  dict_get k (heap st2 payload) = Some v
  /\ exists data : pydict,
      requested st2
      = (requested st1
           ++ [{| req_method := verb2;
                  req_url := _api self ++ endpoint2;
                  req_data := Some data |}])%list
      /\ dict_get k data = Some v.
Proof.
  cbv zeta. intros Hnd1 Hnd2 Hne Hold Hnew.
  set (st1 := snd (_put_post_delete json_loads server self endpoint1 payload verb1 st)).
  assert (Hp : heap st1 payload
               = dict_update (heap st payload) (heap st (_auth_dict self))).
  { unfold st1. rewrite put_post_delete_heap. now rewrite Nat.eqb_refl. }
  assert (Ha : heap st1 auth2 = heap st auth2).
  { unfold st1. rewrite put_post_delete_heap.
    apply Nat.eqb_neq in Hne. now rewrite Hne. }
  assert (Hk : dict_get k (dict_update (heap st1 payload) (heap st1 auth2)) = Some v).
  { rewrite Ha, (dict_get_update k _ Hnd2), Hnew, Hp.
    now rewrite (dict_get_update k _ Hnd1), Hold. }
  split.
  - rewrite put_post_delete_heap, Nat.eqb_refl. exact Hk.
  - exists (dict_update (heap st1 payload) (heap st1 auth2)).
    split; [|exact Hk].
    rewrite put_post_delete_requested. reflexivity.
Qed.

(** X9.  In the payload after [_put_post_delete] the caller's keys
    come first, in their order, followed by the auth keys the payload
    did not have, in the order of the auth dictionary; no key occurs
    twice. *)
Theorem put_post_delete_key_order (self : BaseAPI) (endpoint : string)
    (payload : loc) (verb : http_method) (st : state) :
  let st' := snd (_put_post_delete json_loads server self endpoint payload verb st) in
  NoDup (dict_keys (heap st payload)) ->
  NoDup (dict_keys (heap st (_auth_dict self))) ->
  dict_keys (heap st' payload)
  = (dict_keys (heap st payload)
       ++ filter (fun k => negb (mem_name k (dict_keys (heap st payload))))
            (dict_keys (heap st (_auth_dict self))))%list
  /\ NoDup (dict_keys (heap st' payload)).
Proof.
  cbv zeta. intros Hp Ha.
  rewrite put_post_delete_heap, Nat.eqb_refl, (dict_keys_update _ Ha).
  split; [reflexivity | now apply NoDup_app_filter].
Qed.

End TransportMore.

(** ** Query and payload construction *)

Lemma dict_get_present (k : string) (d : pydict) :
  In k (dict_keys d) -> exists v, dict_get k d = Some v.
Proof.
  induction d as [|[k' v'] d IH]; simpl; intro H; [contradiction|].
  destruct (String.eqb_spec k' k) as [->|Hne].
  - now exists v'.
  - destruct H as [H|H]; [contradiction | now apply IH].
Qed.

Lemma dict_get_some_in (k : string) (v : pyval) (d : pydict) :
  dict_get k d = Some v -> In k (dict_keys d).
Proof.
  induction d as [|[k' v'] d IH]; simpl; [discriminate|].
  destruct (String.eqb_spec k' k) as [->|Hne]; intro H.
  - now left.
  - right. now apply IH.
Qed.

Lemma in_keys_remove (k x : string) (d : pydict) :
  NoDup (dict_keys d) ->
  In x (dict_keys (dict_remove k d)) <-> In x (dict_keys d) /\ x <> k.
Proof.
  induction d as [|[k' v'] d IH]; simpl; intro Hnd.
  - tauto.
  - inversion Hnd as [|? ? Hnotin Hnd']; subst.
    destruct (String.eqb_spec k' k) as [->|Hne]; simpl.
    + split.
      * intro H. split; [now right | intros ->; contradiction].
      * intros [[H|H] Hx]; [congruence | exact H].
    + rewrite (IH Hnd'). split.
      * intros [H|[H Hx]]; [subst x; split; [now left | congruence] | split; [now right | exact Hx]].
      * intros [[H|H] Hx]; [now left | right; now split].
Qed.

Lemma NoDup_keys_remove (k : string) (d : pydict) :
  NoDup (dict_keys d) -> NoDup (dict_keys (dict_remove k d)).
Proof.
  induction d as [|[k' v'] d IH]; simpl; intro Hnd; [constructor|].
  inversion Hnd as [|? ? Hnotin Hnd']; subst.
  destruct (String.eqb k' k); [exact Hnd'|].
  simpl. constructor; [|now apply IH].
  intro Hin. apply (in_keys_remove k k' d Hnd') in Hin. tauto.
Qed.

Lemma without_nil (d : pydict) : without [] d = d.
Proof.
  unfold without. induction d as [|kv d IH]; [reflexivity|].
  cbn [filter]. unfold mem_name at 1. cbn [existsb negb]. now rewrite IH.
Qed.

Lemma without_absent (n : string) (names : list string) (d : pydict) :
  ~ In n (dict_keys d) -> without (n :: names) d = without names d.
Proof.
  intro Hn. unfold without. apply filter_ext_in. intros [k v] Hin.
  unfold mem_name. cbn [existsb fst].
  destruct (String.eqb_spec n k) as [->|Hne]; [|reflexivity].
  exfalso. apply Hn. change k with (fst (k, v)). now apply in_map.
Qed.

Lemma without_cons (names : list string) (k : string) (v : pyval) (d : pydict) :
  without names ((k, v) :: d)
  = if mem_name k names then without names d else (k, v) :: without names d.
Proof.
  unfold without. cbn [filter fst]. now destruct (mem_name k names).
Qed.

Lemma mem_name_cons (k n : string) (names : list string) :
  mem_name k (n :: names) = ((n =? k)%string || mem_name k names)%bool.
Proof.
  reflexivity.
Qed.

(** Popping [n] and then dropping [names] drops [n :: names]. *)
Lemma without_remove (n : string) (names : list string) (d : pydict) :
  NoDup (dict_keys d) ->
  without names (dict_remove n d) = without (n :: names) d.
Proof.
  induction d as [|[k v] d IH]; intro Hnd; [reflexivity|].
  cbn [dict_keys map fst] in Hnd. inversion Hnd as [|? ? Hnotin Hnd']; subst.
  cbn [dict_remove]. rewrite (without_cons (n :: names)), mem_name_cons.
  destruct (String.eqb_spec k n) as [->|Hne].
  - rewrite String.eqb_refl. cbn [orb]. symmetry. now apply without_absent.
  - assert (E : (n =? k)%string = false) by (apply String.eqb_neq; congruence).
    rewrite E. cbn [orb]. rewrite without_cons, (IH Hnd'). reflexivity.
Qed.

Lemma bind_assoc {A B C : Type} (m : M A) (k : A -> M B) (h : B -> M C) (st : state) :
  bind (bind m k) h st = bind m (fun a => bind (k a) h) st.
Proof.
  unfold bind. destruct (m st) as [[a|e] st']; reflexivity.
Qed.

(** Popping names that are distinct keys of the dictionary removes
    them and nothing else. *)
Lemma pop_all_ok (l : loc) (names : list string) :
  forall st : state,
    NoDup (dict_keys (heap st l)) ->
    NoDup names ->
    incl names (dict_keys (heap st l)) ->
    fst (pop_all l names st) = Ok tt
    /\ heap (snd (pop_all l names st)) l = without names (heap st l)
    /\ (forall l', l' <> l -> heap (snd (pop_all l names st)) l' = heap st l')
    /\ requested (snd (pop_all l names st)) = requested st.
Proof.
  induction names as [|n names IH]; intros st Hd Hn Hincl.
  - simpl. rewrite without_nil. repeat split.
  - inversion Hn as [|? ? Hnotin Hn']; subst.
    destruct (dict_get_present n (heap st l)) as [v Hv];
      [apply Hincl; now left|].
    set (st1 := {| heap := heap_set (heap st) l (dict_remove n (heap st l));
                   requested := requested st |}).
    assert (Hstep : pop_all l (n :: names) st = pop_all l names st1).
    { cbn [pop_all]. unfold bind at 1, dict_pop, bind at 1, read_dict.
      rewrite Hv. unfold bind, write_dict, ret. reflexivity. }
    assert (Hh : heap st1 l = dict_remove n (heap st l)).
    { unfold st1. cbn [heap]. unfold heap_set. now rewrite Nat.eqb_refl. }
    rewrite Hstep.
    destruct (IH st1) as [Hr [Hl [Hother Hreq]]].
    + rewrite Hh. now apply NoDup_keys_remove.
    + exact Hn'.
    + rewrite Hh. intros x Hx. apply in_keys_remove; [exact Hd|]. split.
      * apply Hincl. now right.
      * intros ->. contradiction.
    + split; [exact Hr|]. split; [|split].
      * rewrite Hl, Hh. now apply without_remove.
      * intros l' Hne. rewrite (Hother l' Hne). unfold st1. cbn [heap].
        unfold heap_set. apply Nat.eqb_neq in Hne. now rewrite Hne.
      * exact Hreq.
Qed.

(** Popping a name that is missing, or listed twice, raises
    [KeyError] with a name of the list. *)
Lemma pop_all_fails (l : loc) (names : list string) :
  forall st : state,
    NoDup (dict_keys (heap st l)) ->
    ~ (NoDup names /\ incl names (dict_keys (heap st l))) ->
    exists n, In n names /\ fst (pop_all l names st) = Raise (ExKeyError (PStr n)).
Proof.
  induction names as [|n names IH]; intros st Hd Hbad.
  - exfalso. apply Hbad. split; [constructor | intros x []].
  - destruct (dict_get n (heap st l)) as [v|] eqn:Hv.
    + set (st1 := {| heap := heap_set (heap st) l (dict_remove n (heap st l));
                     requested := requested st |}).
      assert (Hstep : pop_all l (n :: names) st = pop_all l names st1).
      { cbn [pop_all]. unfold bind at 1, dict_pop, bind at 1, read_dict.
        rewrite Hv. unfold bind, write_dict, ret. reflexivity. }
      assert (Hh : heap st1 l = dict_remove n (heap st l)).
      { unfold st1. cbn [heap]. unfold heap_set. now rewrite Nat.eqb_refl. }
      destruct (IH st1) as [n' [Hin Hr]].
      * rewrite Hh. now apply NoDup_keys_remove.
      * rewrite Hh. intros [Hn Hincl]. apply Hbad. split.
        -- constructor; [|exact Hn]. intro Hin.
           apply Hincl, (in_keys_remove n n _ Hd) in Hin. tauto.
        -- intros x [<-|Hx]; [now apply dict_get_some_in with v|].
           apply Hincl, (in_keys_remove n x _ Hd) in Hx. tauto.
      * exists n'. split; [now right | now rewrite Hstep].
    + exists n. split; [now left|].
      cbn [pop_all]. unfold bind at 1, dict_pop, bind at 1, read_dict.
      rewrite Hv. reflexivity.
Qed.

(** The query string of a dictionary: the entries with a truthy value,
    in the format of the auth dictionary. *)
Lemma params_fold (self : BaseAPI) (items : pydict) :
  fold_left
    (fun query_string kv => query_string ++ _param self (PStr (fst kv)) (snd kv))
    items ""
  = auth_query (truthy_entries items).
Proof.
  rewrite (fold_left_append (fun kv => _param self (PStr (fst kv)) (snd kv))).
  cbn [append]. unfold auth_query, truthy_entries.
  induction items as [|[k v] items IH].
  - reflexivity.
  - cbn [map filter fst snd]. rewrite concat_nosep_cons, IH. unfold _param.
    destruct (truthy v).
    + cbn [map fst snd]. now rewrite concat_nosep_cons.
    + reflexivity.
Qed.

Lemma parse_params_as_pop (self : BaseAPI) (locals_copy : loc)
    (endpoint_args : list string) (st : state) :
  _parse_params self locals_copy endpoint_args st
  = match pop_all locals_copy ("self" :: endpoint_args) st with
    | (Ok _, st') => (Ok (auth_query (truthy_entries (heap st' locals_copy))), st')
    | (Raise e, st') => (Raise e, st')
    end.
Proof.
  unfold _parse_params. rewrite <- bind_assoc.
  change (bind (dict_pop locals_copy "self") (fun _ => pop_all locals_copy endpoint_args))
    with (pop_all locals_copy ("self" :: endpoint_args)).
  unfold bind at 1.
  destruct (pop_all locals_copy ("self" :: endpoint_args) st) as [[u|e] st'];
    [|reflexivity].
  unfold bind, read_dict, ret. now rewrite params_fold.
Qed.

Lemma parse_payload_as_pop (self : BaseAPI) (locals_copy : loc)
    (endpoint_args : list string) (st : state) :
  _parse_payload self locals_copy endpoint_args st
  = match pop_all locals_copy ("self" :: endpoint_args) st with
    | (Ok _, st') => (Ok locals_copy, st')
    | (Raise e, st') => (Raise e, st')
    end.
Proof.
  unfold _parse_payload. rewrite <- bind_assoc.
  change (bind (dict_pop locals_copy "self") (fun _ => pop_all locals_copy endpoint_args))
    with (pop_all locals_copy ("self" :: endpoint_args)).
  unfold bind at 1.
  destruct (pop_all locals_copy ("self" :: endpoint_args) st) as [[u|e] st'];
    reflexivity.
Qed.

(** X10.  When ['self'] and the endpoint arguments are distinct keys
    of the dictionary, [_parse_params] returns the [param=value&]
    pairs of the other entries that have a truthy value, in the order
    of the dictionary, and the caller's dictionary has lost ['self']
    and the endpoint arguments; nothing else changes. *)
Theorem parse_params_result (self : BaseAPI) (locals_copy : loc)
    (endpoint_args : list string) (st : state) :
  let kept := without ("self" :: endpoint_args) (heap st locals_copy) in
  let run := _parse_params self locals_copy endpoint_args st in
  NoDup (dict_keys (heap st locals_copy)) ->
  NoDup ("self" :: endpoint_args) ->
  incl ("self" :: endpoint_args) (dict_keys (heap st locals_copy)) ->
  fst run = Ok (auth_query (truthy_entries kept))
  /\ heap (snd run) locals_copy = kept
  /\ (forall l, l <> locals_copy -> heap (snd run) l = heap st l)
  /\ requested (snd run) = requested st.
Proof.
  cbv zeta. intros Hd Hn Hincl.
  destruct (pop_all_ok locals_copy ("self" :: endpoint_args) st Hd Hn Hincl)
    as [Hr [Hl [Hother Hreq]]].
  rewrite parse_params_as_pop.
  destruct (pop_all locals_copy ("self" :: endpoint_args) st) as [[u|e] st'];
    cbn [fst snd] in *; [|discriminate].
  rewrite Hl. repeat split; assumption.
Qed.

(** X11.  When ['self'] or an endpoint argument is not a key of the
    dictionary, or the endpoint arguments repeat a name or list
    ['self'], [_parse_params] and [_parse_payload] both raise
    [KeyError] with one of these names. *)
Theorem parse_key_error (self : BaseAPI) (locals_copy : loc)
    (endpoint_args : list string) (st : state) :
  NoDup (dict_keys (heap st locals_copy)) ->
  ~ (NoDup ("self" :: endpoint_args)
     /\ incl ("self" :: endpoint_args) (dict_keys (heap st locals_copy))) ->
  exists n : string,
    In n ("self" :: endpoint_args)
    /\ fst (_parse_params self locals_copy endpoint_args st)
       = Raise (ExKeyError (PStr n))
    /\ fst (_parse_payload self locals_copy endpoint_args st)
       = Raise (ExKeyError (PStr n)).
Proof.
  intros Hd Hbad.
  destruct (pop_all_fails locals_copy ("self" :: endpoint_args) st Hd Hbad)
    as [n [Hin Hr]].
  exists n. split; [exact Hin|].
  rewrite parse_params_as_pop, parse_payload_as_pop.
  destruct (pop_all locals_copy ("self" :: endpoint_args) st) as [[u|e] st'];
    cbn [fst] in Hr; [discriminate|].
  injection Hr as ->. cbn [fst]. split; reflexivity.
Qed.

(** X12.  The dictionary is consumed: after [_parse_params] or
    [_parse_payload] has returned, either of them called again on the
    same dictionary raises [KeyError('self')]. *)
Theorem parse_again_key_error (self self' : BaseAPI) (locals_copy : loc)
    (endpoint_args endpoint_args' : list string) (st : state) :
  let st1 := snd (_parse_params self locals_copy endpoint_args st) in
  let st2 := snd (_parse_payload self locals_copy endpoint_args st) in
  NoDup (dict_keys (heap st locals_copy)) ->
  NoDup ("self" :: endpoint_args) ->
  incl ("self" :: endpoint_args) (dict_keys (heap st locals_copy)) ->
  fst (_parse_params self' locals_copy endpoint_args' st1)
  = Raise (ExKeyError (PStr "self"))
  /\ fst (_parse_payload self' locals_copy endpoint_args' st1)
     = Raise (ExKeyError (PStr "self"))
  /\ fst (_parse_params self' locals_copy endpoint_args' st2)
     = Raise (ExKeyError (PStr "self"))
  /\ fst (_parse_payload self' locals_copy endpoint_args' st2)
     = Raise (ExKeyError (PStr "self")).
Proof.
  cbv zeta. intros Hd Hn Hincl.
  destruct (pop_all_ok locals_copy ("self" :: endpoint_args) st Hd Hn Hincl)
    as [Hr [Hl _]].
  assert (Hgone : dict_get "self"
                    (without ("self" :: endpoint_args) (heap st locals_copy)) = None).
  { apply dict_get_absent. unfold dict_keys, without. intro Hin.
    apply in_map_iff in Hin. destruct Hin as [[k v] [Hk Hin]].
    apply filter_In in Hin. destruct Hin as [_ Hf]. cbn [fst] in Hk, Hf. subst k.
    rewrite mem_name_cons, String.eqb_refl in Hf. discriminate. }
  assert (Hfail : forall st' : state,
             heap st' locals_copy
             = without ("self" :: endpoint_args) (heap st locals_copy) ->
             fst (_parse_params self' locals_copy endpoint_args' st')
             = Raise (ExKeyError (PStr "self"))
             /\ fst (_parse_payload self' locals_copy endpoint_args' st')
                = Raise (ExKeyError (PStr "self"))).
  { intros st' Hh.
    unfold _parse_params, _parse_payload, bind, dict_pop, bind, read_dict.
    rewrite Hh, Hgone. split; reflexivity. }
  assert (H1 : heap (snd (_parse_params self locals_copy endpoint_args st)) locals_copy
               = without ("self" :: endpoint_args) (heap st locals_copy)).
  { rewrite parse_params_as_pop.
    destruct (pop_all locals_copy ("self" :: endpoint_args) st) as [[u|e] st'];
      cbn [fst snd] in *; [exact Hl | discriminate]. }
  assert (H2 : heap (snd (_parse_payload self locals_copy endpoint_args st)) locals_copy
               = without ("self" :: endpoint_args) (heap st locals_copy)).
  { rewrite parse_payload_as_pop.
    destruct (pop_all locals_copy ("self" :: endpoint_args) st) as [[u|e] st'];
      cbn [fst snd] in *; [exact Hl | discriminate]. }
  destruct (Hfail _ H1) as [Ha Hb]. destruct (Hfail _ H2) as [Hc Hd'].
  repeat split; assumption.
Qed.

Section PayloadMore.

Variable json_loads : string -> option pyval.
Variable server : list http_request -> http_request -> result Response.

(** X13.  [_parse_payload] returns the reference it was given, and a
    request made from it,
    [self._post(endpoint, self._parse_payload(locals().copy(), args))],
    sends the entries other than ['self'] and the endpoint arguments,
    updated with the auth dictionary. *)
Theorem parse_payload_then_send (self : BaseAPI) (locals_copy : loc)
    (endpoint_args : list string) (endpoint : string) (verb : http_method)
    (st : state) :
  let kept := without ("self" :: endpoint_args) (heap st locals_copy) in
  let run := bind (_parse_payload self locals_copy endpoint_args)
               (fun payload =>
                  _put_post_delete json_loads server self endpoint payload verb) st in
  NoDup (dict_keys (heap st locals_copy)) ->
  NoDup ("self" :: endpoint_args) ->
  incl ("self" :: endpoint_args) (dict_keys (heap st locals_copy)) ->
  locals_copy <> _auth_dict self ->
  fst (_parse_payload self locals_copy endpoint_args st) = Ok locals_copy
  /\ heap (snd (_parse_payload self locals_copy endpoint_args st)) locals_copy = kept
  /\ requested (snd run)
     = (requested st
          ++ [{| req_method := verb;
                 req_url := _api self ++ endpoint;
                 req_data := Some (dict_update kept (heap st (_auth_dict self))) |}])%list
  /\ heap (snd run) locals_copy = dict_update kept (heap st (_auth_dict self)).
Proof.
  cbv zeta. intros Hd Hn Hincl Hne.
  destruct (pop_all_ok locals_copy ("self" :: endpoint_args) st Hd Hn Hincl)
    as [Hr [Hl [Hother Hreq]]].
  unfold bind. rewrite parse_payload_as_pop.
  destruct (pop_all locals_copy ("self" :: endpoint_args) st) as [[u|e] st'];
    cbn [fst snd] in Hr, Hl, Hother, Hreq; [|discriminate].
  cbv beta iota. cbn [fst snd].
  split; [reflexivity|]. split; [exact Hl|].
  assert (Ha : heap st' (_auth_dict self) = heap st (_auth_dict self))
    by (apply Hother; congruence).
  split.
  - rewrite put_post_delete_requested, Hreq, Hl, Ha. reflexivity.
  - rewrite put_post_delete_heap, Nat.eqb_refl, Hl, Ha. reflexivity.
Qed.

End PayloadMore.

(** X14.  Nothing is escaped: a string value that holds [&name=text]
    gives the query string of two parameters. *)
Theorem param_value_not_escaped (self : BaseAPI) (k v k2 v2 : string) :
  v <> "" ->
  v2 <> "" ->
  _param self (PStr k) (PStr (v ++ "&" ++ k2 ++ "=" ++ v2))
  = _param self (PStr k) (PStr v) ++ _param self (PStr k2) (PStr v2).
Proof.
  intros Hv Hv2. unfold _param.
  assert (Hlong : truthy (PStr (v ++ "&" ++ k2 ++ "=" ++ v2)) = true).
  { apply truthy_text. destruct v; [congruence | discriminate]. }
  apply truthy_text in Hv, Hv2. rewrite Hlong, Hv, Hv2. cbn [py_str].
  now rewrite !append_assoc.
Qed.

(** ** Equality of cache keys *)

Lemma py_eqb_tuple (l1 l2 : list pyval) :
  py_eqb (PTuple l1) (PTuple l2) = args_eqb l1 l2.
Proof.
  reflexivity.
Qed.

Lemma b2z_inj (x y : bool) : Z.b2z x = Z.b2z y -> x = y.
Proof.
  destruct x, y; simpl; intro H; congruence.
Qed.

Ltac eqb_to_eq :=
  repeat match goal with
    | H : Bool.eqb _ _ = true |- _ => apply Bool.eqb_prop in H
    | H : (_ =? _)%Z = true |- _ => apply Z.eqb_eq in H
    | H : (_ =? _)%string = true |- _ => apply String.eqb_eq in H
    | H : Z.b2z _ = Z.b2z _ |- _ => apply b2z_inj in H
    end;
  subst.

Ltac eqb_close :=
  first [ apply Bool.eqb_reflx
        | apply Z.eqb_refl
        | apply String.eqb_refl
        | (apply Z.eqb_eq; congruence)
        | (apply Bool.eqb_true_iff; apply b2z_inj; congruence) ].

Lemma py_eqb_sym :
  forall a b : pyval, hashable a = true -> py_eqb a b = true -> py_eqb b a = true.
Proof.
  fix IH 1. intros a b Ha Hab.
  destruct a as [|x|x|x|la|la|da]; try discriminate Ha;
    destruct b as [|y|y|y|lb|lb|db]; try (simpl in Hab; discriminate Hab).
  - reflexivity.
  - simpl in *. eqb_to_eq. eqb_close.
  - simpl in *. eqb_to_eq. eqb_close.
  - simpl in *. eqb_to_eq. eqb_close.
  - simpl in *. eqb_to_eq. eqb_close.
  - simpl in *. eqb_to_eq. eqb_close.
  - rewrite py_eqb_tuple in *. cbn [hashable] in Ha.
    revert lb Hab. induction la as [|x la IHla]; intros [|y lb] Hab;
      try discriminate Hab; [reflexivity|].
    cbn [forallb] in Ha. cbn [args_eqb] in *.
    apply andb_true_iff in Ha, Hab. destruct Ha as [Hx Hla], Hab as [Hxy Hab].
    apply andb_true_iff. split; [exact (IH x y Hx Hxy) | exact (IHla Hla lb Hab)].
Qed.

Lemma py_eqb_trans :
  forall a b c : pyval,
    hashable a = true -> py_eqb a b = true -> py_eqb b c = true -> py_eqb a c = true.
Proof.
  fix IH 1. intros a b c Ha Hab Hbc.
  destruct a as [|x|x|x|la|la|da]; try discriminate Ha;
    destruct b as [|y|y|y|lb|lb|db]; try (simpl in Hab; discriminate Hab);
    destruct c as [|z|z|z|lc|lc|dc]; try (simpl in Hbc; discriminate Hbc);
    try (simpl in *; eqb_to_eq; eqb_close).
  - reflexivity.
  - rewrite py_eqb_tuple in *. cbn [hashable] in Ha.
    revert lb lc Hab Hbc. induction la as [|x la IHla]; intros [|y lb] [|z lc] Hab Hbc;
      try discriminate Hab; try discriminate Hbc; [reflexivity|].
    cbn [forallb] in Ha. cbn [args_eqb] in *.
    apply andb_true_iff in Ha, Hab, Hbc.
    destruct Ha as [Hx Hla], Hab as [Hxy Hab], Hbc as [Hyz Hbc].
    apply andb_true_iff. split;
      [exact (IH x y z Hx Hxy Hyz) | exact (IHla Hla lb lc Hab Hbc)].
Qed.

Lemma args_eqb_sym (l1 l2 : list pyval) :
  forallb hashable l1 = true -> args_eqb l1 l2 = true -> args_eqb l2 l1 = true.
Proof.
  rewrite <- !py_eqb_tuple. apply (py_eqb_sym (PTuple l1) (PTuple l2)).
Qed.

Lemma args_eqb_trans (l1 l2 l3 : list pyval) :
  forallb hashable l1 = true ->
  args_eqb l1 l2 = true -> args_eqb l2 l3 = true -> args_eqb l1 l3 = true.
Proof.
  rewrite <- !py_eqb_tuple. apply (py_eqb_trans (PTuple l1) (PTuple l2) (PTuple l3)).
Qed.

Lemma key_eqb_sym (a b : memo_key) :
  forallb hashable (snd a) = true -> key_eqb a b = true -> key_eqb b a = true.
Proof.
  unfold key_eqb. intros Ha H. apply andb_true_iff in H. destruct H as [Hn Hargs].
  apply andb_true_iff. split.
  - apply frozenset_eqb_iff. intro x. symmetry.
    now apply (proj1 (frozenset_eqb_iff _ _) Hn).
  - now apply args_eqb_sym.
Qed.

Lemma key_eqb_trans (a b c : memo_key) :
  forallb hashable (snd a) = true ->
  key_eqb a b = true -> key_eqb b c = true -> key_eqb a c = true.
Proof.
  unfold key_eqb. intros Ha Hab Hbc.
  apply andb_true_iff in Hab, Hbc. destruct Hab as [Hn1 Ha1], Hbc as [Hn2 Ha2].
  apply andb_true_iff. split.
  - apply frozenset_eqb_iff. intro x.
    rewrite (proj1 (frozenset_eqb_iff _ _) Hn1 x).
    apply (proj1 (frozenset_eqb_iff _ _) Hn2).
  - now apply args_eqb_trans with (snd b).
Qed.

(** ** The memo across calls *)

Section MemoizeMore.

Variables St V : Type.
Variable f : BaseAPI -> list pyval -> pydict -> St -> result V * St.

(** A call leaves the memo as it is or assigns one entry, under its
    own key and the current time. *)
Lemma memoized_memo_cases (now : Z) (inst : BaseAPI) (args : list pyval)
    (kwargs : pydict) (memo memo' : memo_t V) (s s' : St) (r : result V) :
  memoized f now inst args kwargs memo s = (r, memo', s') ->
  memo' = memo
  \/ (forallb hashable args = true
      /\ exists v, memo' = memo_set (make_key args kwargs) (v, now) memo).
Proof.
  intro Hcall. destruct (forallb hashable args) eqn:Hh.
  - destruct (must_call (make_key args kwargs) now inst memo) eqn:Em.
    + rewrite (memoized_miss _ _ _ _ _ _ _ _ _ Hh Em) in Hcall.
      destruct (f inst args kwargs s) as [[v|e] s0]; injection Hcall as <- <- <-.
      * right. split; [reflexivity | now exists v].
      * now left.
    + unfold must_call in Em.
      destruct (memo_get (make_key args kwargs) memo) as [[v0 stamp]|] eqn:Eg;
        [|discriminate].
      rewrite (memoized_hit _ _ _ _ _ _ _ _ _ _ _ Hh Eg Em) in Hcall.
      injection Hcall as <- <- <-. now left.
  - unfold memoized in Hcall. rewrite Hh in Hcall. cbn [negb] in Hcall.
    injection Hcall as <- <- <-. now left.
Qed.

Lemma memo_set_forall_keys (P : memo_key -> Prop) (key : memo_key) (e : V * Z)
    (memo : memo_t V) :
  P key ->
  Forall (fun entry => P (fst entry)) memo ->
  Forall (fun entry => P (fst entry)) (memo_set key e memo).
Proof.
  intros Hk. induction memo as [|[k x] memo IH]; intro H; simpl.
  - constructor; [exact Hk | constructor].
  - inversion H as [|? ? Hx Hrest]; subst.
    destruct (key_eqb k key); constructor; auto.
Qed.


Lemma memo_get_set_other (key key' : memo_key) (e : V * Z) (memo : memo_t V) :
  keys_hashable memo ->
  forallb hashable (snd key) = true ->
  key_eqb key key' = false ->
  memo_get key' (memo_set key e memo) = memo_get key' memo.
Proof.
  intros Hm Hkey Hne. induction memo as [|[k x] memo IH]; simpl.
  - now rewrite Hne.
  - inversion Hm as [|? ? Hk Hm']; subst. cbn [fst snd] in Hk.
    destruct (key_eqb k key) eqn:E; simpl.
    + destruct (key_eqb k key') eqn:E'; [|reflexivity].
      exfalso. apply key_eqb_sym in E; [|exact Hk].
      rewrite (key_eqb_trans key k key' Hkey E E') in Hne. discriminate.
    + now rewrite (IH Hm').
Qed.

Lemma memo_get_set_some (key key' : memo_key) (e : V * Z) (memo : memo_t V) :
  memo_get key' memo <> None -> memo_get key' (memo_set key e memo) <> None.
Proof.
  induction memo as [|[k x] memo IH]; simpl; intro H.
  - contradiction.
  - destruct (key_eqb k key) eqn:E; simpl.
    + destruct (key_eqb k key'); [discriminate | exact H].
    + destruct (key_eqb k key'); [discriminate | now apply IH].
Qed.

Lemma memo_set_length (key : memo_key) (e : V * Z) (memo : memo_t V) :
  (List.length memo <= List.length (memo_set key e memo) <= S (List.length memo))%nat.
Proof.
  induction memo as [|[k x] memo IH]; simpl; [lia|].
  destruct (key_eqb k key); simpl; lia.
Qed.

(** Keys that are equal, seen from the stored keys, find the same
    entry. *)
Lemma memo_get_congr_in (key1 key2 : memo_key) (memo : memo_t V) :
  Forall (fun entry => key_eqb (fst entry) key1 = key_eqb (fst entry) key2) memo ->
  memo_get key1 memo = memo_get key2 memo.
Proof.
  induction memo as [|[k x] memo IH]; simpl; intro H; [reflexivity|].
  inversion H as [|? ? Hk Hrest]; subst. cbn [fst] in Hk.
  now rewrite Hk, (IH Hrest).
Qed.


(** X16.  A call touches one entry only: what the memo holds under a
    key that is not equal to the key of the call is the same before and
    after. *)
Theorem memoized_other_keys_untouched (now : Z) (inst : BaseAPI)
    (args args' : list pyval) (kwargs kwargs' : pydict) (memo memo' : memo_t V)
    (s s' : St) (r : result V) :
  keys_hashable memo ->
  key_eqb (make_key args kwargs) (make_key args' kwargs') = false ->
  memoized f now inst args kwargs memo s = (r, memo', s') ->
  memo_get (make_key args' kwargs') memo' = memo_get (make_key args' kwargs') memo.
Proof.
  intros Hh Hne Hcall.
  destruct (memoized_memo_cases _ _ _ _ _ _ _ _ _ Hcall) as [->|[Hargs [v ->]]].
  - reflexivity.
  - now apply memo_get_set_other.
Qed.

(** X17.  Entries are never dropped: a key found in the memo before a
    call is found after it, and a call adds at most one entry. *)
Theorem memoized_never_forgets (now : Z) (inst : BaseAPI)
    (args : list pyval) (kwargs : pydict) (memo memo' : memo_t V)
    (s s' : St) (r : result V) :
  memoized f now inst args kwargs memo s = (r, memo', s') ->
  (forall key : memo_key, memo_get key memo <> None -> memo_get key memo' <> None)
  /\ (List.length memo <= List.length memo' <= S (List.length memo))%nat.
Proof.
  intro Hcall.
  destruct (memoized_memo_cases _ _ _ _ _ _ _ _ _ Hcall) as [->|[Hargs [v ->]]].
  - split; [auto | lia].
  - split; [intros key; apply memo_get_set_some | apply memo_set_length].
Qed.

(** X18.  Positional arguments are compared with [==]: after a call
    that returned [v], a call whose positional arguments are equal to
    the first ones ([True] for [1], say), with the same keyword names,
    made while the entry is live, returns [v] without calling the
    wrapped function. *)
Theorem memoized_equal_args_share_entry (T1 T2 : Z) (inst1 inst2 : BaseAPI)
    (args args' : list pyval) (kwargs kwargs' : pydict) (memo memo1 : memo_t V)
    (s s1 s2 : St) (v : V) :
  keys_hashable memo ->
  memoized f T1 inst1 args kwargs memo s = (Ok v, memo1, s1) ->
  forallb hashable args' = true ->
  args_eqb args args' = true ->
  same_names kwargs kwargs' ->
  exists stamp : Z,
    memo_get (make_key args kwargs) memo1 = Some (v, stamp)
    /\ (within (T2 - stamp) (_cache_life inst2) ->
        memoized f T2 inst2 args' kwargs' memo1 s2 = (Ok v, memo1, s2)).
Proof.
  intros Hm Hfirst Hh' Hargs Hn.
  pose proof (memoized_ok_hashable _ _ _ _ _ _ _ _ _ _ _ _ Hfirst) as Hh.
  assert (Hm1 : keys_hashable memo1).
  { destruct (memoized_memo_cases _ _ _ _ _ _ _ _ _ Hfirst) as [->|[_ [v0 ->]]];
      [exact Hm|].
    now apply (memo_set_forall_keys (fun k => forallb hashable (snd k) = true)). }
  destruct (memoized_ok_entry _ _ _ _ _ _ _ _ _ _ _ _ Hfirst) as [stamp Hentry].
  exists stamp. split; [exact Hentry|]. intro Hw.
  assert (Hkk : key_eqb (make_key args kwargs) (make_key args' kwargs') = true).
  { unfold key_eqb, make_key. cbn [fst snd]. rewrite Hargs, andb_true_r.
    now apply frozenset_eqb_iff. }
  apply memoized_hit with (stamp := stamp); [exact Hh' | | now apply outlived_false_iff].
  rewrite <- Hentry. symmetry. apply memo_get_congr_in.
  unfold keys_hashable in Hm1. rewrite Forall_forall in Hm1. apply Forall_forall.
  intros [k x] Hin. cbn [fst]. specialize (Hm1 _ Hin). cbn [fst snd] in Hm1.
  apply eq_true_iff_eq. split; intro H.
  - now apply key_eqb_trans with (make_key args kwargs).
  - apply key_eqb_trans with (make_key args' kwargs'); [exact Hm1 | exact H|].
    now apply key_eqb_sym.
Qed.

End MemoizeMore.

(** * The further properties on concrete inputs *)

Ltac nodup_strings :=
  repeat (apply NoDup_cons; [simpl; intuition discriminate|]); apply NoDup_nil.

Ltac incl_strings :=
  let x := fresh "x" in
  let H := fresh "H" in
  intros x H; simpl in H |- *; intuition.

(** Status 401 with a body that is no JSON, with [{}] and with [[1]]. *)
Lemma check_status_401_malformed_witness :
  _check_status Json.loads client (mkResponse 401 "oops" "http://x/y")
  = Raise ExJSONDecodeError
  /\ _check_status Json.loads client (mkResponse 401 "{}" "http://x/y")
     = Raise (ExKeyError (PStr "error_msg"))
  /\ _check_status Json.loads client (mkResponse 401 "[1]" "http://x/y")
     = Raise ExTypeError.
Proof.
  split; [|split].
  - apply (check_status_401_malformed Json.loads client
             (mkResponse 401 "oops" "http://x/y"));
      [reflexivity | discriminate | reflexivity].
  - apply (check_status_401_malformed Json.loads client
             (mkResponse 401 "{}" "http://x/y") eq_refl ltac:(discriminate)
             : _ /\ _ /\ _) with (fields := []); reflexivity.
  - apply (proj2 (proj2 (check_status_401_malformed Json.loads client
                           (mkResponse 401 "[1]" "http://x/y") eq_refl
                           ltac:(discriminate)))) with (v := PList [PInt 1]).
    + reflexivity.
    + discriminate.
Defined.

(** A GET against a server that answers 500, and against one that
    cannot be reached. *)
Lemma get_propagates_failure_witness :
  fst (_get Json.loads failing_server client "a?" start)
  = Raise (ExValueError "Status code unhandled: 500 for URL http://x/a?token=abc&")
  /\ fst (_get Json.loads down_server client "a?" start)
     = Raise (ExOther "ConnectionError").
Proof.
  split.
  - rewrite (get_propagates_failure Json.loads failing_server client "a?" start
               (ExValueError "Status code unhandled: 500 for URL http://x/a?token=abc&")).
    + reflexivity.
    + right. eexists. split; reflexivity.
  - rewrite (get_propagates_failure Json.loads down_server client "a?" start
               (ExOther "ConnectionError")).
    + reflexivity.
    + left. reflexivity.
Defined.

(** A GET answered 200 with a body that is HTML. *)
Lemma get_undecodable_body_witness :
  fst (_get Json.loads (constant_server (mkResponse 200 "<html>" "http://x/a"))
         client "a?" start)
  = Raise ExJSONDecodeError.
Proof.
  apply (get_undecodable_body Json.loads
           (constant_server (mkResponse 200 "<html>" "http://x/a"))
           client "a?" start (mkResponse 200 "<html>" "http://x/a")).
  - reflexivity.
  - reflexivity.
  - discriminate.
  - reflexivity.
Defined.

(** A POST answered with [{"items": [1, 2]}], and a DELETE answered
    500. *)
Lemma put_post_delete_outcome_witness :
  fst (_put_post_delete Json.loads
         (constant_server (mkResponse 200 items_body "http://x/things"))
         client "things" 1%nat POST start)
  = Ok (PDict [("items", PList [PInt 1; PInt 2])])
  /\ fst (_put_post_delete Json.loads failing_server client "things" 1%nat DELETE start)
     = Raise (ExValueError "Status code unhandled: 500 for URL http://x/things").
Proof.
  split.
  - apply (proj1 (put_post_delete_outcome Json.loads
                    (constant_server (mkResponse 200 items_body "http://x/things"))
                    client "things" 1%nat POST start))
      with (response := mkResponse 200 items_body "http://x/things").
    + reflexivity.
    + reflexivity.
    + discriminate.
    + reflexivity.
  - apply (proj2 (put_post_delete_outcome Json.loads failing_server
                    client "things" 1%nat DELETE start)).
    right. eexists. split; reflexivity.
Defined.

(** A POST of the dictionary at [1], and a POST of the auth
    dictionary itself. *)
Lemma put_post_delete_frame_witness :
  heap (snd (_put_post_delete Json.loads failing_server client "things" 1%nat POST
               start)) 0%nat
  = [("token", PStr "abc")]
  /\ heap (snd (_put_post_delete Json.loads failing_server client "things" 0%nat POST
                  start)) 0%nat
     = [("token", PStr "abc")].
Proof.
  assert (Hnd : NoDup (dict_keys (heap start (_auth_dict client)))) by nodup_strings.
  split.
  - apply (put_post_delete_frame Json.loads failing_server client "things" 1%nat POST
             start Hnd).
  - apply (put_post_delete_frame Json.loads failing_server client "things" 0%nat POST
             start Hnd).
Defined.

(** The dictionary at [1] sent twice. *)
Lemma put_post_delete_twice_witness :
  let st1 := snd (_put_post_delete Json.loads failing_server client "a" 1%nat POST start) in
  let st2 := snd (_put_post_delete Json.loads failing_server client "b" 1%nat PUT st1) in
  heap st2 1%nat = [("token", PStr "abc"); ("name", PStr "n")]
  /\ heap st2 1%nat = heap st1 1%nat.
Proof.
  cbv zeta.
  assert (Hnd : NoDup (dict_keys (heap start (_auth_dict client)))) by nodup_strings.
  destruct (put_post_delete_twice Json.loads failing_server client "a" "b" 1%nat
              POST PUT start Hnd) as [Hsame _].
  split; [reflexivity | exact Hsame].
Defined.

(** The dictionary at [1] sent with the auth [{"token": "abc"}], then
    again after [set_auth] with [{"secret": "s"}]: the token is sent
    again. *)
Lemma put_post_delete_stale_auth_witness :
  let st1 := snd (_put_post_delete Json.loads failing_server client "a" 1%nat POST
                    start_locals) in
  let st2 := snd (_put_post_delete Json.loads failing_server (set_auth client 3%nat)
                    "b" 1%nat POST st1) in
  heap st2 1%nat = [("token", PStr "abc"); ("name", PStr "n"); ("secret", PStr "s")]
  /\ dict_get "token" (heap st2 1%nat) = Some (PStr "abc").
Proof.
  cbv zeta. split; [reflexivity|].
  apply (put_post_delete_stale_auth Json.loads failing_server client "a" "b"
           1%nat 3%nat POST POST start_locals "token" (PStr "abc")).
  - nodup_strings.
  - nodup_strings.
  - discriminate.
  - reflexivity.
  - reflexivity.
Defined.

(** The keys of the dictionary at [1] after a POST with the auth
    [{"secret": "s"}]. *)
Lemma put_post_delete_key_order_witness :
  dict_keys (heap (snd (_put_post_delete Json.loads failing_server
                          (set_auth client 3%nat) "a" 1%nat POST start_locals)) 1%nat)
  = ["token"; "name"; "secret"].
Proof.
  apply (put_post_delete_key_order Json.loads failing_server (set_auth client 3%nat)
           "a" 1%nat POST start_locals); nodup_strings.
Defined.

(** The local variables [id=7, q='a', limit=0, page=2] with the
    endpoint argument [id]. *)
Lemma parse_params_result_witness :
  fst (_parse_params client 2%nat ["id"] start_locals) = Ok "q=a&page=2&"
  /\ heap (snd (_parse_params client 2%nat ["id"] start_locals)) 2%nat
     = [("q", PStr "a"); ("limit", PInt 0); ("page", PInt 2)].
Proof.
  destruct (parse_params_result client 2%nat ["id"] start_locals)
    as [Hr [Hh _]].
  - nodup_strings.
  - nodup_strings.
  - incl_strings.
  - split; [exact Hr | exact Hh].
Defined.

(** The endpoint argument [id] listed twice. *)
Lemma parse_key_error_witness :
  exists n : string,
    In n ["self"; "id"; "id"]
    /\ fst (_parse_params client 2%nat ["id"; "id"] start_locals)
       = Raise (ExKeyError (PStr n))
    /\ fst (_parse_payload client 2%nat ["id"; "id"] start_locals)
       = Raise (ExKeyError (PStr n)).
Proof.
  apply (parse_key_error client 2%nat ["id"; "id"] start_locals).
  - nodup_strings.
  - intros [Hnd _]. inversion Hnd as [|? ? _ Hnd']. inversion Hnd' as [|? ? Hin _].
    apply Hin. now left.
Defined.

(** The same local variables parsed twice. *)
Lemma parse_again_key_error_witness :
  fst (_parse_params client 2%nat ["id"]
         (snd (_parse_params client 2%nat ["id"] start_locals)))
  = Raise (ExKeyError (PStr "self")).
Proof.
  apply (parse_again_key_error client client 2%nat ["id"] ["id"] start_locals).
  - nodup_strings.
  - nodup_strings.
  - incl_strings.
Defined.

(** A PUT made from the local variables. *)
Lemma parse_payload_then_send_witness :
  requested
    (snd (bind (_parse_payload client 2%nat ["id"])
            (fun payload =>
               _put_post_delete Json.loads failing_server client "things/7" payload PUT)
            start_locals))
  = [mkRequest PUT "http://x/things/7"
       (Some [("q", PStr "a"); ("limit", PInt 0); ("page", PInt 2);
              ("token", PStr "abc")])].
Proof.
  destruct (parse_payload_then_send Json.loads failing_server client 2%nat ["id"]
              "things/7" PUT start_locals) as [_ [_ [Hreq _]]].
  - nodup_strings.
  - nodup_strings.
  - incl_strings.
  - discriminate.
  - exact Hreq.
Defined.

(** The value [a&admin=1] of the parameter [q]. *)
Lemma param_value_not_escaped_witness :
  _param client (PStr "q") (PStr "a&admin=1")
  = _param client (PStr "q") (PStr "a") ++ _param client (PStr "admin") (PStr "1").
Proof.
  apply (param_value_not_escaped client "q" "a" "admin" "1"); discriminate.
Defined.


(** A query for [albums] leaves the entry of [artists] alone. *)
Lemma memoized_other_keys_untouched_witness :
  let call := memoized (query counting_server) in
  let first := call 1000 client_ttl10 [PStr "artists"] [] [] start in
  let second := call 1001 client_ttl10 [PStr "albums"] [] (snd (fst first)) (snd first) in
  memo_get (make_key [PStr "artists"] []) (snd (fst second)) = Some (PInt 0, 1000)
  /\ memo_get (make_key [PStr "albums"] []) (snd (fst second)) = Some (PInt 1, 1001).
Proof.
  cbv zeta.
  set (first := memoized (query counting_server) 1000 client_ttl10
                  [PStr "artists"] [] [] start).
  set (second := memoized (query counting_server) 1001 client_ttl10
                   [PStr "albums"] [] (snd (fst first)) (snd first)).
  split; [|reflexivity].
  rewrite (memoized_other_keys_untouched state pyval (query counting_server)
             1001 client_ttl10 [PStr "albums"] [PStr "artists"] [] []
             (snd (fst first)) (snd (fst second)) (snd first) (snd second)
             (fst (fst second))).
  - reflexivity.
  - repeat constructor.
  - reflexivity.
  - reflexivity.
Defined.

(** An entry that has outlived the cache life is replaced, not
    dropped. *)
Lemma memoized_never_forgets_witness :
  let call := memoized (query counting_server) in
  let first := call 1000 client_ttl10 [PStr "artists"] [] [] start in
  let second := call 2000 client_ttl10 [PStr "artists"] [] (snd (fst first)) (snd first) in
  memo_get (make_key [PStr "artists"] []) (snd (fst second)) <> None
  /\ List.length (snd (fst second)) = 1%nat.
Proof.
  cbv zeta.
  set (first := memoized (query counting_server) 1000 client_ttl10
                  [PStr "artists"] [] [] start).
  set (second := memoized (query counting_server) 2000 client_ttl10
                   [PStr "artists"] [] (snd (fst first)) (snd first)).
  destruct (memoized_never_forgets state pyval (query counting_server)
              2000 client_ttl10 [PStr "artists"] [] (snd (fst first))
              (snd (fst second)) (snd first) (snd second) (fst (fst second))
              eq_refl) as [Hkeep _].
  split; [|reflexivity].
  apply Hkeep. discriminate.
Defined.

(** A query with the argument [1], then with the argument [True]. *)
Lemma memoized_equal_args_share_entry_witness :
  let call := memoized (query counting_server) in
  let first := call 1000 client_ttl10 [PInt 1] [] [] start in
  fst (fst first) = Ok (PInt 0)
  /\ call 1005 client_ttl10 [PBool true] [] (snd (fst first)) (snd first)
     = (Ok (PInt 0), snd (fst first), snd first).
Proof.
  cbv zeta.
  set (first := memoized (query counting_server) 1000 client_ttl10
                  [PInt 1] [] [] start).
  assert (Hfirst : first = (Ok (PInt 0), snd (fst first), snd first)) by reflexivity.
  destruct (memoized_equal_args_share_entry state pyval (query counting_server)
              1000 1005 client_ttl10 client_ttl10 [PInt 1] [PBool true] [] []
              [] (snd (fst first)) start (snd first) (snd first) (PInt 0))
    as [stamp [Hentry Hnext]].
  - constructor.
  - exact Hfirst.
  - reflexivity.
  - reflexivity.
  - intro x. reflexivity.
  - assert (Hstamp : stamp = 1000) by (vm_compute in Hentry; congruence).
    split; [reflexivity|]. apply Hnext. rewrite Hstamp. simpl. lia.
Defined.

(** ** A GET made from the local variables *)

Section QueryMore.

Variable json_loads : string -> option pyval.
Variable server : list http_request -> http_request -> result Response.

Lemma get_requested (self : BaseAPI) (qstring : string) (st : state) :
  requested (snd (_get json_loads server self qstring st))
  = (requested st
       ++ [{| req_method := GET;
              req_url := (_api self ++ qstring)
                           ++ auth_query (heap st (_auth_dict self));
              req_data := None |}])%list.
Proof.
  rewrite get_unfold.
  destruct (server _ _) as [response|e]; [|reflexivity].
  destruct (_check_status json_loads self response); reflexivity.
Qed.

(** X19.  A query built as
    [self._get(prefix + self._parse_params(locals().copy(), args))]
    requests the base URL, the prefix, the [param=value&] pairs of the
    local variables other than ['self'] and the endpoint arguments
    whose value is truthy, and then every entry of the auth dictionary,
    truthy or not. *)
Theorem parse_params_then_get (self : BaseAPI) (locals_copy : loc)
    (endpoint_args : list string) (prefix : string) (st : state) :
  let kept := without ("self" :: endpoint_args) (heap st locals_copy) in
  let run := bind (_parse_params self locals_copy endpoint_args)
               (fun query => _get json_loads server self (prefix ++ query)) st in
  NoDup (dict_keys (heap st locals_copy)) ->
  NoDup ("self" :: endpoint_args) ->
  incl ("self" :: endpoint_args) (dict_keys (heap st locals_copy)) ->
  locals_copy <> _auth_dict self ->
  requested (snd run)
  = (requested st
       ++ [{| req_method := GET;
              req_url := (_api self ++ (prefix ++ auth_query (truthy_entries kept)))
                           ++ auth_query (heap st (_auth_dict self));
              req_data := None |}])%list.
Proof.
  cbv zeta. intros Hd Hn Hincl Hne.
  destruct (pop_all_ok locals_copy ("self" :: endpoint_args) st Hd Hn Hincl)
    as [Hr [Hl [Hother Hreq]]].
  unfold bind. rewrite parse_params_as_pop.
  destruct (pop_all locals_copy ("self" :: endpoint_args) st) as [[u|e] st'];
    cbn [fst snd] in Hr, Hl, Hother, Hreq; [|discriminate].
  cbv beta iota.
  assert (Ha : heap st' (_auth_dict self) = heap st (_auth_dict self))
    by (apply Hother; congruence).
  rewrite get_requested, Hreq, Hl, Ha. reflexivity.
Qed.

End QueryMore.

(** A search made from the local variables [id=7, q='a', limit=0,
    page=2]. *)
Lemma parse_params_then_get_witness :
  requested
    (snd (bind (_parse_params client 2%nat ["id"])
            (fun query => _get Json.loads failing_server client ("search/7?" ++ query))
            start_locals))
  = [mkRequest GET "http://x/search/7?q=a&page=2&token=abc&" None].
Proof.
  apply (parse_params_then_get Json.loads failing_server client 2%nat ["id"]
           "search/7?" start_locals).
  - nodup_strings.
  - nodup_strings.
  - incl_strings.
  - discriminate.
Defined.
